(** * Tic-Tac-Toe (t3.py): board queries, the rule-based player and the
      match loop, embedded from the Python source and verified. *)

From Stdlib Require Import ZArith Lia Bool Ascii.
From stdpp Require Import base option list gmap strings.

(** ** Data model *)

(** A participant's mark: the strings "X" and "O" of the source. *)
Inductive mark := X | O.

#[global] Instance mark_eq_dec : EqDecision mark.
Proof. solve_decision. Defined.

(** A board cell holds [None] (Python's None) or a mark. *)
Definition cell := option mark.

(** [self.other_mark = "XO"[mark == "X"]] *)
Definition other_mark (m : mark) : mark :=
  if decide (m = X) then O else X.

(** [self.board[i]].  The board is created with nine cells and never
    resized; every index the program uses is a literal of [threes], a value
    of [range(9)] or a move accepted by [check_move].  On such boards the
    default below is never used. *)
Definition cell_at (b : list cell) (i : nat) : cell := default None (b !! i).

(** Truthiness of a cell: None is false, "X" and "O" are true. *)
Definition truthy (c : cell) : bool :=
  match c with Some _ => true | None => false end.

Definition is_none (c : cell) : bool := negb (truthy c).

(** [game.threes]: rows, columns, diagonals, in declaration order. *)
Definition threes : list (list nat) :=
  [ [0; 1; 2]; [3; 4; 5]; [6; 7; 8];
    [0; 3; 6]; [1; 4; 7]; [2; 5; 8];
    [0; 4; 8]; [2; 4; 6] ].

(** A [for] loop whose body may [return]: the first iteration that returns
    decides, otherwise the loop runs to its end. *)
Fixpoint for_return {A B} (body : A → option B) (l : list A) : option B :=
  match l with
  | [] => None
  | x :: rest =>
      match body x with
      | Some r => Some r
      | None => for_return body rest
      end
  end.

(** ** game.winner *)

(** [self.board[sq] == m] *)
Definition holds (b : list cell) (m : mark) (sq : nat) : bool :=
  bool_decide (cell_at b sq = Some m).

(** [winner]: the empty string of the source is [None] here. *)
Definition winner (b : list cell) : option mark :=
  for_return
    (λ m, for_return
            (λ three, if forallb (holds b m) three then Some m else None)
            threes)
    [X; O].

(** ** game.check_for_wins *)

(** [sum(self.board[cell] == mark for cell in three)] *)
Definition count_mark (b : list cell) (m : mark) (three : list nat) : nat :=
  length (filter (λ sq, holds b m sq = true) three).

Definition first_empty (b : list cell) (three : list nat) : option nat :=
  for_return (λ sq, if is_none (cell_at b sq) then Some sq else None) three.

Definition check_for_wins (b : list cell) (m : mark) : option nat :=
  for_return
    (λ three, if count_mark b m three =? 2 then first_empty b three else None)
    threes.

(** ** game.check_for_twos *)

(** The dictionary [twos]: Python dictionaries iterate in insertion order,
    and rule 4 of the player iterates over this one, so it is an association
    list that keeps the order in which keys were first inserted. *)
Definition twos_map := list (nat * nat).

Fixpoint twos_get (k : nat) (t : twos_map) : option nat :=
  match t with
  | [] => None
  | (k', v) :: rest => if decide (k' = k) then Some v else twos_get k rest
  end.

(** [if cell in twos: twos[cell] += 1 else: twos[cell] = 1] *)
Fixpoint twos_bump (k : nat) (t : twos_map) : twos_map :=
  match t with
  | [] => [(k, 1)]
  | (k', v) :: rest =>
      if decide (k' = k) then (k', S v) :: rest else (k', v) :: twos_bump k rest
  end.

Definition twos_keys (t : twos_map) : list nat := t.*1.

(** [mark in diag and diag.count(None) == 2] *)
Definition is_two (b : list cell) (m : mark) (three : list nat) : bool :=
  let diag := map (cell_at b) three in
  bool_decide (Some m ∈ diag) && (length (filter (λ c, c = None) diag) =? 2).

Definition bump_empties (b : list cell) (three : list nat) (t : twos_map) : twos_map :=
  foldl (λ acc sq, if is_none (cell_at b sq) then twos_bump sq acc else acc) t three.

Definition check_for_twos (b : list cell) (m : mark) : twos_map :=
  foldl (λ acc three, if is_two b m three then bump_empties b three acc else acc)
        [] threes.

(** ** computer.move *)

(** The set [cells] of rules 3 and 5: the empty cells of the lines in which
    [m] holds two cells. *)
Definition threat_cells (b : list cell) (m : mark) : gset nat :=
  foldl (λ cells three,
           if count_mark b m three =? 2
           then foldl (λ cs sq, if is_none (cell_at b sq) then {[sq]} ∪ cs else cs)
                      cells three
           else cells)
        ∅ threes.

(** Rules 3 and 5 are the same loop, run for the player's own mark and for
    the opponent's: try every cell in ascending order on a copy of the
    board. *)
Definition fork_at (b : list cell) (m : mark) (i : nat) : option nat :=
  if is_none (cell_at b i)
  then if size (threat_cells (<[i := Some m]> b) m) =? 2 then Some i else None
  else None.

Definition fork_move (b : list cell) (m : mark) : option nat :=
  for_return (fork_at b m) (seq 0 9).

(** Rule 4: [w in hypo_twos and hypo_twos[w] > 1]. *)
Definition is_fork_point (w : option nat) (t : twos_map) : bool :=
  match w with
  | Some c => match twos_get c t with Some n => 1 <? n | None => false end
  | None => false
  end.

Definition force_at (b : list cell) (m : mark) (i : nat) : option nat :=
  let hypo := <[i := Some m]> b in
  let w := check_for_wins hypo m in
  let hypo_twos := check_for_twos hypo (other_mark m) in
  if is_fork_point w hypo_twos then None else Some i.

Definition force_move (b : list cell) (m : mark) : option nat :=
  for_return (force_at b m) (twos_keys (check_for_twos b m)).

(** Rule 6. *)
Definition center_move (b : list cell) : option nat :=
  if is_none (cell_at b 4) then Some 4 else None.

(** Rule 7: [maps = {0:8, 8:0, 2:6, 6:2}], [corners = [0,2,6,8]]. *)
Definition maps : gmap nat nat := {[ 0 := 8; 8 := 0; 2 := 6; 6 := 2 ]}.
Definition corners : list nat := [0; 2; 6; 8].
Definition sides : list nat := [1; 3; 5; 7].

Definition opposite_corner_move (b : list cell) (m : mark) : option nat :=
  for_return
    (λ corner,
       match maps !! corner with
       | Some opp =>
           if bool_decide (cell_at b corner = Some (other_mark m))
              && is_none (cell_at b opp)
           then Some opp else None
       | None => None
       end)
    corners.

(** Rules 8 and 9: the head of the list of empty cells, if there is one. *)
Definition first_of (b : list cell) (cells : list nat) : option nat :=
  head (filter (λ sq, is_none (cell_at b sq) = true) cells).

(** "a or b" on optional results: the first rule that returns decides. *)
Definition or_else {A} (r : option A) (next : option A) : option A :=
  match r with Some x => Some x | None => next end.

Infix "<|>" := or_else (at level 51, right associativity).

(** Rules 5 to 9, the part of [move] after rule 4. *)
Definition move_from_rule5 (b : list cell) (m : mark) : option nat :=
  fork_move b (other_mark m)
  <|> center_move b
  <|> opposite_corner_move b m
  <|> first_of b corners
  <|> first_of b sides.

(** [computer.move]: [None] is the value of a call that falls off the end
    of the function. *)
Definition move (b : list cell) (m : mark) : option nat :=
  check_for_wins b m
  <|> check_for_wins b (other_mark m)
  <|> fork_move b m
  <|> force_move b m
  <|> move_from_rule5 b m.

(** ** The match: game.__init__, game.check_move, game.play *)

(** The attributes of a [game] object that the match loop reads and writes. *)
Record game := Game { board : list cell; moves : nat }.

(** [self.board = [None for x in range(9)]],
    [self.moves = 9 - self.board.count(None)] *)
Definition count_none (b : list cell) : nat := length (filter (λ c, c = None) b).

Definition new_game : game :=
  let b := replicate 9 None in
  {| board := b; moves := 9 - count_none b |}.

(** What a participant's [move] hands back: the players of this program
    return an [int] (human, monkey, computer) or None (computer, when no
    rule applies). *)
Inductive pyval := PyInt (z : Z) | PyNone.

(** [check_move]: the two [print] calls go to the console and are not part
    of the state. *)
Definition check_move (g : game) (m : pyval) : bool :=
  match m with
  | PyNone => false                           (* type(move) != int *)
  | PyInt z =>
      if (z >? 8)%Z || (z <? 0)%Z then false
      else if truthy (cell_at (board g) (Z.to_nat z)) then false
      else true
  end.

(** A participant's strategy.  The first argument numbers the requests made
    during the match: it stands for whatever the strategy reads besides the
    match itself (the keyboard, the random generator). *)
Definition strategy := nat → game → pyval.

(** [self.players]: the X player first, after the sort of [__init__]. *)
Definition players := (strategy * strategy)%type.

(** [self.players[self.moves % 2]] *)
Definition turn (ps : players) (g : game) : strategy :=
  if moves g mod 2 =? 0 then ps.1 else ps.2.

(** [["X", "O"][self.moves % 2]] *)
Definition mark_to_play (g : game) : mark :=
  if moves g mod 2 =? 0 then X else O.

(** [m = ....move(self)] followed by
    [while not self.check_move(m): m = ....move(self)]: the accepted cell
    and the number of the next request.  [None]: the fuel ran out. *)
Fixpoint ask_move (fuel : nat) (ps : players) (g : game) (t : nat)
  : option (nat * nat) :=
  match fuel with
  | 0 => None
  | S fuel' =>
      let m := turn ps g t g in
      if check_move g m
      then match m with
           | PyInt z => Some (Z.to_nat z, S t)
           | PyNone => None
           end
      else ask_move fuel' ps g (S t)
  end.

(** [self.board[m] = ["X", "O"][self.moves % 2]; self.moves += 1] *)
Definition apply_move (g : game) (m : nat) : game :=
  {| board := <[m := Some (mark_to_play g)]> (board g); moves := moves g + 1 |}.

(** One applied move of the loop: the state before, the cell and the state
    after. *)
Record applied := Applied { before : game; played : nat; after : game }.

(** The loop of [play], from the state [g] with the local variable [winner]
    holding [w].  The result is the list of the moves applied so far and,
    when the loop ended within the fuel, the final state with the value
    returned. *)
Fixpoint play_loop (fuel : nat) (ps : players) (t : nat) (g : game)
    (w : option mark) : list applied * option (game * option mark) :=
  if (moves g <? 9) && negb (bool_decide (is_Some w))
  then match fuel with
       | 0 => ([], None)
       | S fuel' =>
           match ask_move fuel' ps g t with
           | None => ([], None)
           | Some (m, t') =>
               let g' := apply_move g m in
               let '(tr, r) := play_loop fuel' ps t' g' (winner (board g')) in
               (Applied g m g' :: tr, r)
           end
       end
  else ([], Some (g, w)).

(** [play]: [winner = ""] and the loop. *)
Definition play (fuel : nat) (ps : players) (g : game) :=
  play_loop fuel ps 0 g None.

(** The computer as a participant of the match. *)
Definition computer (m : mark) : strategy :=
  λ _ g, match move (board g) m with Some c => PyInt (Z.of_nat c) | None => PyNone end.

(** ** Objects and references: the match as the strategies see it *)

(** [computer.move] receives a reference to the live [game] object, copies
    it with [deepcopy] and writes into the copies.  To state that the live
    match is left alone, the objects live in a store: a [game] object holds
    a reference to its board, a list object of its own. *)
Definition loc := nat.

Inductive obj :=
  | OGame (board_ref : loc) (n_moves : nat)
  | OList (cells : list cell).

(** A computation on the store; [None] stands for a raised exception. *)
Definition M (A : Type) : Type := gmap loc obj → option (A * gmap loc obj).

#[global] Instance M_ret : MRet M := λ A a h, Some (a, h).
#[global] Instance M_bind : MBind M := λ A B k c h,
  match c h with
  | Some (a, h') => k a h'
  | None => None
  end.

(** The [game] attributes reachable from the reference [self]. *)
Definition view (h : gmap loc obj) (self : loc) : option game :=
  match h !! self with
  | Some (OGame r n) =>
      match h !! r with
      | Some (OList cs) => Some (Game cs n)
      | _ => None
      end
  | _ => None
  end.

(** Reading [self.board] and [self.moves]. *)
Definition read_game (self : loc) : M game :=
  λ h, match view h self with Some g => Some (g, h) | None => None end.

(** [self.board[i] = v]: the list object behind [self.board] is updated in
    place; an index out of range raises IndexError. *)
Definition store_cell (self : loc) (i : nat) (v : cell) : M unit :=
  λ h, match h !! self with
       | Some (OGame r _) =>
           match h !! r with
           | Some (OList cs) =>
               if decide (i < length cs)
               then Some ((), <[r := OList (<[i := v]> cs)]> h)
               else None
           | _ => None
           end
       | _ => None
       end.

(** [deepcopy(self)]: a new list object with the same cells and a new
    [game] object that refers to it. *)
Definition dc (self : loc) : M loc :=
  λ h, match h !! self with
       | Some (OGame r n) =>
           match h !! r with
           | Some (OList cs) =>
               let r' := fresh (dom h) in
               let h1 := <[r' := OList cs]> h in
               let self' := fresh (dom h1) in
               Some (self', <[self' := OGame r' n]> h1)
           | _ => None
           end
       | _ => None
       end.

(** The methods of [game], as called on a reference. *)
Definition winnerM (self : loc) : M (option mark) :=
  g ← read_game self; mret (winner (board g)).

Definition check_for_winsM (self : loc) (m : mark) : M (option nat) :=
  g ← read_game self; mret (check_for_wins (board g) m).

Definition check_for_twosM (self : loc) (m : mark) : M twos_map :=
  g ← read_game self; mret (check_for_twos (board g) m).

Definition check_moveM (self : loc) (mv : pyval) : M bool :=
  g ← read_game self; mret (check_move g mv).

(** A [for] loop with [return] whose body works on the store. *)
Fixpoint for_returnM {A B} (body : A → M (option B)) (l : list A) : M (option B) :=
  match l with
  | [] => mret None
  | x :: rest =>
      r ← body x;
      match r with
      | Some y => mret (Some y)
      | None => for_returnM body rest
      end
  end.

(** Run [next] only when [c] did not return. *)
Definition or_elseM {A} (c next : M (option A)) : M (option A) :=
  r ← c; match r with Some y => mret (Some y) | None => next end.

(** The body of the loops of rules 3 and 5. *)
Definition fork_atM (match_ : loc) (m : mark) (i : nat) : M (option nat) :=
  hypo_match ← dc match_;
  g ← read_game hypo_match;
  if is_none (cell_at (board g) i)
  then store_cell hypo_match i (Some m);;
       g' ← read_game hypo_match;
       mret (if size (threat_cells (board g') m) =? 2 then Some i else None)
  else mret None.

(** The body of the loop of rule 4. *)
Definition force_atM (match_ : loc) (m : mark) (i : nat) : M (option nat) :=
  hypo_match ← dc match_;
  store_cell hypo_match i (Some m);;
  w ← check_for_winsM hypo_match m;
  hypo_twos ← check_for_twosM hypo_match (other_mark m);
  mret (if is_fork_point w hypo_twos then None else Some i).

Definition force_moveM (match_ : loc) (m : mark) : M (option nat) :=
  self_twos ← check_for_twosM match_ m;
  for_returnM (force_atM match_ m) (twos_keys self_twos).

(** [computer.move] on a reference to the match. *)
Definition moveM (match_ : loc) (m : mark) : M (option nat) :=
  or_elseM (check_for_winsM match_ m)
  (or_elseM (check_for_winsM match_ (other_mark m))
  (or_elseM (for_returnM (fork_atM match_ m) (seq 0 9))
  (or_elseM (force_moveM match_ m)
  (or_elseM (for_returnM (fork_atM match_ (other_mark m)) (seq 0 9))
  (or_elseM (g ← read_game match_; mret (center_move (board g)))
  (or_elseM (g ← read_game match_; mret (opposite_corner_move (board g) m))
  (or_elseM (g ← read_game match_; mret (first_of (board g) corners))
            (g ← read_game match_; mret (first_of (board g) sides))))))))).

(** A store holding one match. *)
Definition store_of (g : game) : gmap loc obj :=
  {[ 0 := OGame 1 (moves g); 1 := OList (board g) ]}.

(** ** Well-formed boards and their enumeration *)

Definition wf_board (b : list cell) : Prop := length b = 9.

(** All boards with [n] cells. *)
Fixpoint all_boards (n : nat) : list (list cell) :=
  match n with
  | 0 => [[]]
  | S k => b ← all_boards k; [None :: b; Some X :: b; Some O :: b]
  end.

(** A line of the board all of whose cells hold [m]. *)
Definition full_line (b : list cell) (m : mark) (three : list nat) : Prop :=
  ∀ sq, sq ∈ three → cell_at b sq = Some m.

Definition has_line (b : list cell) (m : mark) : bool :=
  existsb (forallb (holds b m)) threes.

(** The board has an empty cell. *)
Definition has_empty (b : list cell) : Prop := ∃ i, b !! i = Some None.

(** The board of the second end-to-end scenario. *)
Definition scenario2 : list cell :=
  [Some X; Some O; Some X; Some O; Some X; Some O; None; None; None].

(** A board on which X has already completed the top row and O holds two
    cells of the middle row. *)
Definition x_row_o_pair : list cell :=
  [Some X; Some X; Some X; Some O; Some O; None; None; None; None].

(** The lines counted by the multiplicity of the cell [c]: [c] is on the
    line, [m] holds exactly one cell of it, and two cells of it, [c] among
    them, are empty. *)
Definition count_empty (b : list cell) (three : list nat) : nat :=
  length (filter (λ sq, cell_at b sq = None) three).

Definition two_through (b : list cell) (m : mark) (c : nat) (three : list nat) : Prop :=
  c ∈ three ∧ count_mark b m three = 1 ∧ count_empty b three = 2
  ∧ cell_at b c = None.

#[global] Instance two_through_dec b m c three : Decision (two_through b m c three).
Proof. unfold two_through. apply _. Defined.

Definition lines_through (b : list cell) (m : mark) (c : nat) : nat :=
  length (filter (two_through b m c) threes).

(** Rule 4's test on a candidate [i], in the words of the description:
    the cell that wins for [m] once [m] stands at [i] is a key of the
    opponent's twos on that board, with a multiplicity above 1. *)
Definition opponent_fork_point (b : list cell) (m : mark) (i : nat) : Prop :=
  let hypo := <[i := Some m]> b in
  ∃ w n, check_for_wins hypo m = Some w
         ∧ twos_get w (check_for_twos hypo (other_mark m)) = Some n
         ∧ 1 < n.

(** A position with X to play in which rules 1 to 3 find nothing and the
    first candidate of rule 4 is skipped. *)
Definition rule4_board : list cell :=
  [None; Some X; Some O; None; Some O; None; Some X; None; None].

(** A full board without a winner. *)
Definition drawn_board : list cell :=
  [Some X; Some O; Some X; Some X; Some O; Some O; Some O; Some X; Some X].

(** The number of occupied cells of a board. *)
Definition occupied (b : list cell) : nat := length (filter (λ c, c ≠ None) b).

(** What holds of a move applied by the loop of [play]: it went to an
    empty cell, wrote X on an even move count and O on an odd one, left the
    occupied cells as they were, and the move count then equals the number
    of occupied cells. *)
Definition applied_ok (a : applied) : Prop :=
  board (before a) !! played a = Some None
  ∧ board (after a)
    = <[played a := Some (if Nat.even (moves (before a)) then X else O)]>
        (board (before a))
  ∧ (∀ i c, board (before a) !! i = Some (Some c) →
            board (after a) !! i = Some (Some c))
  ∧ moves (after a) = S (moves (before a))
  ∧ moves (after a) = occupied (board (after a)).

(** The applied moves follow one another from the state [g]. *)
Fixpoint chained (g : game) (tr : list applied) : Prop :=
  match tr with
  | [] => True
  | a :: rest => before a = g ∧ chained (after a) rest
  end.

(** What [winner] answers after [m] is placed at the cell found by
    [check_for_wins]: [m], unless [m] is O and X already has a line. *)
Definition winner_after_win (b : list cell) (m : mark) : option mark :=
  if bool_decide (m = O) && has_line b X then Some X else Some m.

Definition wins_ok (b : list cell) (m : mark) : bool :=
  match check_for_wins b m with
  | None => true
  | Some c =>
      bool_decide (b !! c = Some None)
      && bool_decide (winner (<[c := Some m]> b) = winner_after_win b m)
  end.

(** The multiplicity of a key, 0 when the key is absent. *)
Definition mult (c : nat) (t : twos_map) : nat := default 0 (twos_get c t).

(** Every stored multiplicity is positive. *)
Definition positive_twos (t : twos_map) : Prop :=
  ∀ k v, twos_get k t = Some v → 0 < v.

(** The empty cells of [l] equal to [c], with repetitions. *)
Definition hits (b : list cell) (c : nat) (l : list nat) : nat :=
  length (filter (λ sq, sq = c ∧ is_none (cell_at b sq) = true) l).

(** A rule's answer, when there is one, is an empty cell of the board. *)
Definition answers_empty (b : list cell) (r : option nat) : Prop :=
  ∀ c, r = Some c → c < 9 ∧ cell_at b c = None.

(** [c], started in any store in which [self] refers to the match [g],
    returns [a] without raising, and every object of the store it started
    in is still there, unchanged. *)
Definition preserves (self : loc) (g : game) {A} (c : M A) (a : A) : Prop :=
  ∀ h, view h self = Some g → ∃ h', c h = Some (a, h') ∧ h ⊆ h'.

(** ** Further notions: winning cells, forks, safe positions *)

(** [m] completes a line by playing the empty cell [c]. *)
Definition wins_at (b : list cell) (m : mark) (c : nat) : Prop :=
  cell_at b c = None
  ∧ ∃ three, three ∈ threes ∧ c ∈ three ∧ full_line (<[c := Some m]> b) m three.

Definition wins_atb (b : list cell) (m : mark) (c : nat) : bool :=
  is_none (cell_at b c)
  && existsb (λ three, bool_decide (c ∈ three)
                       && forallb (holds (<[c := Some m]> b) m) three) threes.

Definition wins_complete_ok (b : list cell) (m : mark) : bool :=
  match check_for_wins b m with
  | Some c => wins_atb b m c
  | None => forallb (λ c, negb (wins_atb b m c)) (seq 0 9)
  end.

(** After the fork found by rules 3 and 5, whatever empty cell the other
    side takes, [m] still has a cell that wins. *)
Definition fork_ok (b : list cell) (m : mark) : bool :=
  match fork_move b m with
  | None => true
  | Some i =>
      forallb (λ j, if negb (j =? i) && is_none (cell_at b j)
                    then bool_decide
                           (is_Some (check_for_wins
                                       (<[j := Some (other_mark m)]>
                                          (<[i := Some m]> b)) m))
                    else true)
              (seq 0 9)
  end.

(** On a board without a winner, a mark placed on an empty cell makes
    nobody but that mark the winner. *)
Definition mover_wins_ok (b : list cell) : bool :=
  match winner b with
  | Some _ => true
  | None =>
      forallb (λ c, forallb (λ m,
                 if is_none (cell_at b c)
                 then bool_decide (winner (<[c := Some m]> b) = None
                                   ∨ winner (<[c := Some m]> b) = Some m)
                 else true) [X; O])
              (seq 0 9)
  end.

(** The state of the match after the applied moves [tr], started in [g]. *)
Definition last_state (g : game) (tr : list applied) : game :=
  from_option after g (last tr).

(** The participants of a match in which the computer holds the mark [me]
    and [opp] is the other participant: X is the first of the pair. *)
Definition seat (me : mark) (opp : strategy) : players :=
  match me with
  | X => (computer X, opp)
  | O => (opp, computer O)
  end.

(** All continuations of the match [g] in which [me] follows [move] and the
    other side plays any empty cell: [me] is never beaten. *)
Fixpoint safe (fuel : nat) (me : mark) (g : game) : bool :=
  match winner (board g) with
  | Some w => bool_decide (w = me)
  | None =>
      if 9 <=? moves g then true
      else match fuel with
           | 0 => false
           | S fuel' =>
               if bool_decide (mark_to_play g = me)
               then match move (board g) me with
                    | Some c => safe fuel' me (apply_move g c)
                    | None => false
                    end
               else forallb (λ c, if is_none (cell_at (board g) c)
                                  then safe fuel' me (apply_move g c)
                                  else true)
                            (seq 0 9)
           end
  end.

(** Participants who, asked again and again on a board with an empty cell,
    come up with an acceptable move after finitely many requests. *)
Definition persistent (ps : players) : Prop :=
  ∀ t g, wf_board (board g) → has_empty (board g) →
         ∃ k, check_move g (turn ps g (t + k) g) = true.

(** ** player.move: the random mover *)

(** [[i for i in range(9) if not match.board[i]]] *)
Definition empty_cells (b : list cell) : list nat :=
  filter (λ i, truthy (cell_at b i) = false) (seq 0 9).

(** [random.choice(seq)]: IndexError, here [None], on an empty sequence;
    otherwise the element at an index below [len(seq)] that the generator
    draws.  [r] is what the generator supplies. *)
Definition choice {A} (r : nat) (l : list A) : option A :=
  match l with
  | [] => None
  | _ => l !! (r mod length l)
  end.

(** [player.move], which the class [monkey] inherits. *)
Definition player_move (r : nat) (b : list cell) : option nat :=
  choice r (empty_cells b).

(** ** human.move *)




(** ** game.__str__ *)

Definition newline : string := String "010"%char "".

(** [game.mini_num] *)
Definition mini_num : string := "012345678".

(** A mark as the string it is in the source. *)
Definition mark_str (m : mark) : string :=
  match m with X => "X" | O => "O" end.

(** [s[n]] on a string, for [n] within the string. *)
Definition char_at (s : string) (n : nat) : string :=
  match String.get n s with
  | Some a => String a ""
  | None => ""
  end.

(** What the loop appends for the cell [n]: the mark, or the digit of the
    cell when it is empty. *)
Definition cell_text (b : list cell) (n : nat) : string :=
  match cell_at b n with
  | Some m => mark_str m
  | None => char_at mini_num n
  end.

(** The body of the loop of [__str__]. *)
Definition str_step (b : list cell) (s : string) (n : nat) : string :=
  let s := if n mod 3 =? 0 then s +:+ newline else s in
  let s := s +:+ cell_text b n in
  s +:+ " ".

(** [game.__str__] *)
Definition to_str (b : list cell) : string :=
  foldl (str_step b) "" (seq 0 9) +:+ newline.

(** The character shown for the cell [n]. *)
Definition cell_char (b : list cell) (n : nat) : ascii :=
  match cell_at b n with
  | Some X => "X"%char
  | Some O => "O"%char
  | None => ascii_of_nat (48 + n)
  end.

(** Where the cell [n] is shown in the text of the board. *)
Definition cell_pos (n : nat) : nat := 2 * n + n / 3 + 1.

(** ** player.__init__ and game.__init__ *)

(** The classes of participants. *)
Inductive kind := Human | Monkey | Computer.

(** A participant object: its class and its attributes [mark] and
    [other_mark]. *)
Record participant :=
  Participant { p_kind : kind; p_mark : string; p_other_mark : string }.

(** How a constructor ends: with the object, with [sys.exit()], or with the
    AssertionError of a failed [assert]. *)
Inductive outcome (A : Type) :=
  | Built (a : A)
  | Exited
  | AssertionFailed.
Arguments Built {A} a.
Arguments Exited {A}.
Arguments AssertionFailed {A}.

Definition outcome_bind {A B} (o : outcome A) (k : A → outcome B) : outcome B :=
  match o with
  | Built a => k a
  | Exited => Exited
  | AssertionFailed => AssertionFailed
  end.

(** ["XO"[c]] for a truth value or a bit [c]: index 1 when it holds. *)
Definition XO_at (c : bool) : string := if c then "O" else "X".

(** [mark in "XO"] on strings: the substrings of "XO". *)
Definition in_XO (mark : string) : bool :=
  bool_decide (mark ∈ [""; "X"; "O"; "XO"]).

(** [player.__init__]; [monkey.__init__] has the same text, [human] and
    [computer] inherit it. *)
Definition new_player (k : kind) (mark : string) : outcome participant :=
  if in_XO mark
  then Built (Participant k mark (XO_at (bool_decide (mark = "X"))))
  else AssertionFailed.

(** [str.upper] on strings of ASCII characters. *)
Definition upper_char (a : ascii) : ascii :=
  let n := nat_of_ascii a in
  if (97 <=? n) && (n <=? 122) then ascii_of_nat (n - 32) else a.

Fixpoint upper (s : string) : string :=
  match s with
  | EmptyString => EmptyString
  | String a rest => String (upper_char a) (upper rest)
  end.

(** [players.sort(key = lambda x: x.mark, reverse = True)]: the sort is
    stable, also in reverse, so participants with equal marks keep their
    order. *)
Fixpoint insert_desc (p : participant) (l : list participant) : list participant :=
  match l with
  | [] => [p]
  | q :: rest =>
      if String.ltb (p_mark p) (p_mark q)
      then q :: insert_desc p rest
      else p :: q :: rest
  end.

Definition sort_desc (l : list participant) : list participant :=
  foldr insert_desc [] l.

(** The attributes of a [game] object after [__init__]. *)
Record match_setup := MatchSetup {
  the_players : list participant;
  cmatch : bool;
  vmark : string;
  start : game
}.

(** [game.__init__(hmark, c1, c2)]; [draw] is the bit that
    [random.randint(0, 1)] supplies. *)
Definition game_init (hmark : option string) (draw : bool) (c1 c2 : kind)
  : outcome match_setup :=
  match hmark with
  | Some (String a rest as h) =>
      if bool_decide (upper h ∈ ["X"; "O"])
      then outcome_bind (new_player Human h) (λ p1,
           outcome_bind (new_player c1 (XO_at (bool_decide (h = "X")))) (λ p2,
           Built (MatchSetup (sort_desc [p1; p2]) false h new_game)))
      else Exited
  | _ =>
      let v := XO_at draw in
      outcome_bind (new_player c1 (XO_at (bool_decide (v = "X")))) (λ p1,
      outcome_bind (new_player c2 v) (λ p2,
      Built (MatchSetup (sort_desc [p1; p2]) true v new_game)))
  end.

(** ** Checks run over all boards *)

(** The result of [check_for_twos] as a dictionary: distinct keys, each an
    empty cell, each multiplicity from 1 to 4. *)
Definition twos_ok (b : list cell) (m : mark) : bool :=
  let t := check_for_twos b m in
  bool_decide (NoDup (twos_keys t))
  && forallb (λ kv, (kv.1 <? 9) && is_none (cell_at b kv.1)
                    && (1 <=? kv.2) && (kv.2 <=? 4)) t.

(** The cell played by rule 4 makes a threat, and the cell that answers the
    threat is not a fork point of the opponent. *)
Definition force_ok (b : list cell) (m : mark) : bool :=
  match force_move b m with
  | None => true
  | Some i =>
      let hypo := <[i := Some m]> b in
      match check_for_wins hypo m with
      | None => false
      | Some w =>
          is_none (cell_at hypo w)
          && negb (is_fork_point (Some w) (check_for_twos hypo (other_mark m)))
      end
  end.

(** ** Requests of the loop of play *)

(** Of the requests made from number [t] on to [players[moves % 2]] of the
    match [g], the one numbered [t + k] is the first whose proposal
    [check_move] accepts, and it proposes the cell [c]. *)
Definition first_accepted (ps : players) (g : game) (t k c : nat) : Prop :=
  (∀ j, j < k → check_move g (turn ps g (t + j) g) = false)
  ∧ turn ps g (t + k) g = PyInt (Z.of_nat c)
  ∧ check_move g (PyInt (Z.of_nat c)) = true.

(** A participant who answers the successive requests from a list. *)
Definition scripted (answers : list pyval) : strategy :=
  λ t _, default PyNone (answers !! t).

(** * Properties *)

(** ** Loops with return *)

Lemma for_return_Some {A B} (body : A → option B) l r :
  for_return body l = Some r → ∃ x, x ∈ l ∧ body x = Some r.
Proof.
  induction l as [|x l IH]; simpl; [done|].
  destruct (body x) eqn:E.
  - intros Hr. exists x. split; [left | congruence].
  - intros H. destruct (IH H) as (y & Hy & Hb). exists y. split; [by right | done].
Qed.

Lemma for_return_None {A B} (body : A → option B) l :
  for_return body l = None ↔ ∀ x, x ∈ l → body x = None.
Proof.
  induction l as [|x l IH]; simpl.
  - split; [intros _ y Hy; inversion Hy | done].
  - destruct (body x) eqn:E.
    + split; [done|]. intros H. rewrite <- E. apply H. left.
    + rewrite IH. split.
      * intros H y Hy. apply elem_of_cons in Hy as [-> | Hy]; auto.
      * intros H y Hy. apply H. by right.
Qed.

Lemma for_return_test {A B} (p : A → bool) (c : B) l :
  for_return (λ x, if p x then Some c else None) l
  = if existsb p l then Some c else None.
Proof. induction l as [|x l IH]; simpl; [done|]. by destruct (p x). Qed.

Lemma or_else_Some {A} (r next : option A) x :
  r <|> next = Some x → r = Some x ∨ (r = None ∧ next = Some x).
Proof. destruct r; simpl; [by left | by right]. Qed.

Lemma or_else_None {A} (r next : option A) :
  r <|> next = None ↔ r = None ∧ next = None.
Proof. destruct r; simpl; split; try done; by intros [? ?]. Qed.

(** ** Boards *)

Lemma all_boards_complete (b : list cell) : b ∈ all_boards (length b).
Proof.
  induction b as [|c b IH]; simpl.
  - by left.
  - apply list_elem_of_bind. exists b. split; [|done].
    destruct c as [[]|]; set_solver.
Qed.

Lemma forall_boards (P : list cell → bool) :
  forallb P (all_boards 9) = true → ∀ b, wf_board b → P b = true.
Proof.
  intros H b Hb. rewrite forallb_forall in H. apply H.
  apply list_elem_of_In. rewrite <- Hb. apply all_boards_complete.
Qed.

Lemma cell_at_lookup (b : list cell) i :
  i < length b → b !! i = Some (cell_at b i).
Proof.
  intros Hi. unfold cell_at.
  destruct (b !! i) eqn:E; [done|].
  apply lookup_ge_None in E. lia.
Qed.

Lemma cell_at_empty (b : list cell) i :
  i < length b → is_none (cell_at b i) = true → b !! i = Some None.
Proof.
  intros Hi Hn. pose proof (cell_at_lookup b i Hi) as E.
  by destruct (cell_at b i).
Qed.

Lemma threes_lt three sq : three ∈ threes → sq ∈ three → sq < 9.
Proof.
  intros H Hsq.
  assert (Forall (Forall (λ sq, sq < 9)) threes) as HF.
  { unfold threes. repeat first [apply Forall_nil_2 | apply Forall_cons_2]; lia. }
  rewrite Forall_forall in HF. specialize (HF _ H).
  rewrite Forall_forall in HF. auto.
Qed.

(** ** winner *)

Lemma winner_unfold b :
  winner b = if has_line b X then Some X
             else if has_line b O then Some O else None.
Proof.
  change (winner b) with
    (for_return (λ three, if forallb (holds b X) three then Some X else None) threes
     <|> for_return (λ three, if forallb (holds b O) three then Some O else None) threes
     <|> None).
  rewrite !for_return_test. fold (has_line b X). fold (has_line b O).
  destruct (has_line b X); [done|]. simpl.
  by destruct (has_line b O).
Qed.

Lemma has_line_true b m :
  has_line b m = true ↔ ∃ three, three ∈ threes ∧ full_line b m three.
Proof.
  unfold has_line, full_line. rewrite existsb_exists. split.
  - intros (three & Hin & Hall). exists three. split; [by apply list_elem_of_In|].
    intros sq Hsq. rewrite forallb_forall in Hall.
    specialize (Hall sq). rewrite <- list_elem_of_In in Hall.
    specialize (Hall Hsq). by apply bool_decide_eq_true in Hall.
  - intros (three & Hin & Hall). exists three. split; [by apply list_elem_of_In|].
    apply forallb_forall. intros sq Hsq. apply bool_decide_eq_true.
    apply Hall. by apply list_elem_of_In.
Qed.

Lemma has_line_false b m :
  has_line b m = false ↔ ∀ three, three ∈ threes → ¬ full_line b m three.
Proof.
  rewrite <- not_true_iff_false, has_line_true. split.
  - intros H three Hin Hf. apply H. eauto.
  - intros H (three & Hin & Hf). by apply (H three).
Qed.

Lemma full_line_one_mark b m m' three :
  three ∈ threes → full_line b m three → full_line b m' three → m = m'.
Proof.
  intros Hin H H'.
  assert (∃ sq, sq ∈ three) as [sq Hsq].
  { unfold threes in Hin. rewrite !elem_of_cons, elem_of_nil in Hin.
    repeat (destruct Hin as [-> | Hin]; [eexists; by left|]). done. }
  specialize (H sq Hsq). specialize (H' sq Hsq). congruence.
Qed.

(** C3: a board whose only single-mark line belongs to [m] is won by [m];
    a board without a single-mark line has no winner; and when both marks
    have a complete line the scan for X comes first, so the answer is X. *)
Theorem winner_spec (b : list cell) :
  wf_board b →
  (∀ m three,
     three ∈ threes → full_line b m three →
     (∀ m' three', three' ∈ threes → full_line b m' three' → three' = three) →
     winner b = Some m)
  ∧ ((∀ m three, three ∈ threes → ¬ full_line b m three) → winner b = None)
  ∧ (∀ tx to,
       tx ∈ threes → to ∈ threes → full_line b X tx → full_line b O to →
       winner b = Some X).
Proof.
  intros _. rewrite winner_unfold. repeat split.
  - intros m three Hin Hfull Huniq.
    destruct (has_line b X) eqn:HX.
    + apply has_line_true in HX as (tx & Htx & Hfx).
      pose proof (Huniq X tx Htx Hfx) as ->.
      f_equal. by apply (full_line_one_mark b X m three).
    + destruct m.
      * rewrite has_line_false in HX. by destruct (HX three Hin).
      * assert (has_line b O = true) as ->; [|done].
        apply has_line_true. eauto.
  - intros Hnone.
    assert (has_line b X = false) as -> by (apply has_line_false; auto).
    assert (has_line b O = false) as -> by (apply has_line_false; auto).
    done.
  - intros tx to Htx _ Hfx _.
    assert (has_line b X = true) as ->; [|done].
    apply has_line_true. eauto.
Qed.

(** ** check_for_wins *)

Lemma winner_spec_witness : winner x_row_o_pair = Some X.
Proof.
  destruct (winner_spec x_row_o_pair) as (Hone & _ & _); [reflexivity|].
  apply (Hone X [0; 1; 2]).
  - left.
  - intros sq Hsq. rewrite !elem_of_cons, elem_of_nil in Hsq.
    destruct Hsq as [-> | [-> | [-> | []]]]; reflexivity.
  - intros m' three' Hin Hfull.
    unfold threes in Hin. rewrite !elem_of_cons, elem_of_nil in Hin.
    destruct Hin as [-> | Hin]; [reflexivity|]. exfalso.
    assert (∀ sq, sq ∈ three' → sq ∈ [5; 6; 7; 8] → False) as Hempty.
    { intros sq Hsq H5. specialize (Hfull sq Hsq).
      rewrite !elem_of_cons, elem_of_nil in H5.
      destruct H5 as [-> | [-> | [-> | [-> | []]]]]; discriminate Hfull. }
    destruct Hin as [-> | [-> | [-> | [-> | [-> | [-> | [-> | []]]]]]]].
    + apply (Hempty 5); rewrite !elem_of_cons; tauto.
    + apply (Hempty 6); rewrite !elem_of_cons; tauto.
    + apply (Hempty 6); rewrite !elem_of_cons; tauto.
    + apply (Hempty 7); rewrite !elem_of_cons; tauto.
    + apply (Hempty 5); rewrite !elem_of_cons; tauto.
    + apply (Hempty 8); rewrite !elem_of_cons; tauto.
    + apply (Hempty 6); rewrite !elem_of_cons; tauto.
Defined.

Lemma wins_ok_all : forallb (λ b, wins_ok b X && wins_ok b O) (all_boards 9) = true.
Proof. vm_compute. reflexivity. Qed.

(** C1, as the code has it: the cell returned by [check_for_wins] is empty,
    and after [m] is placed there [winner] answers [m], except that it
    answers X when [m] is O and the board already had a complete X line
    (X is scanned first). *)
Theorem check_for_wins_wins (b : list cell) (m : mark) (c : nat) :
  wf_board b →
  check_for_wins b m = Some c →
  b !! c = Some None
  ∧ winner (<[c := Some m]> b) = winner_after_win b m
  ∧ (winner b ≠ Some (other_mark m) → winner (<[c := Some m]> b) = Some m).
Proof.
  intros Hwf Hc.
  pose proof (forall_boards _ wins_ok_all b Hwf) as Hok.
  apply andb_true_iff in Hok as [HX HO].
  assert (wins_ok b m = true) as H by (by destruct m).
  unfold wins_ok in H. rewrite Hc in H.
  apply andb_true_iff in H as [He Hw].
  apply bool_decide_eq_true in He, Hw.
  split; [done|]. split; [done|].
  intros Hno. rewrite Hw. unfold winner_after_win.
  destruct m; simpl; [done|].
  rewrite winner_unfold in Hno. unfold other_mark in Hno. simpl in Hno.
  by destruct (has_line b X).
Qed.

Lemma check_for_wins_wins_witness :
  check_for_wins scenario2 X = Some 8
  ∧ scenario2 !! 8 = Some None
  ∧ winner (<[8 := Some X]> scenario2) = Some X.
Proof.
  assert (wf_board scenario2) as Hwf by reflexivity.
  assert (check_for_wins scenario2 X = Some 8) as Hc by reflexivity.
  destruct (check_for_wins_wins scenario2 X 8 Hwf Hc) as (He & Hw & _).
  split; [exact Hc|]. split; [exact He | exact Hw].
Defined.

(** C1 as stated fails: O can complete the middle row of a board on which
    X already holds the top row, and [winner] then answers X. *)
Lemma check_for_wins_wins_counterexample :
  wf_board x_row_o_pair
  ∧ check_for_wins x_row_o_pair O = Some 5
  ∧ winner (<[5 := Some O]> x_row_o_pair) = Some X
  ∧ winner (<[5 := Some O]> x_row_o_pair) ≠ Some O.
Proof. repeat split. discriminate. Qed.

(** ** check_for_twos *)

Lemma twos_get_bump c k t :
  twos_get c (twos_bump k t)
  = if decide (k = c) then Some (S (mult c t)) else twos_get c t.
Proof.
  unfold mult. induction t as [|[k' v] t IH]; simpl.
  - repeat case_decide; done.
  - destruct (decide (k' = k)) as [->|Hne]; simpl.
    + repeat case_decide; done.
    + rewrite IH. repeat case_decide; congruence.
Qed.

Lemma mult_bump c k t :
  mult c (twos_bump k t) = mult c t + (if decide (k = c) then 1 else 0).
Proof.
  unfold mult at 1. rewrite twos_get_bump.
  case_decide; simpl; [lia | unfold mult; lia].
Qed.

Lemma positive_bump k t : positive_twos t → positive_twos (twos_bump k t).
Proof.
  intros Hp c v. rewrite twos_get_bump.
  case_decide; [intros [= <-]; lia | apply Hp].
Qed.

Lemma positive_get c t :
  positive_twos t →
  twos_get c t = if mult c t =? 0 then None else Some (mult c t).
Proof.
  intros Hp. unfold mult. destruct (twos_get c t) as [v|] eqn:E; simpl; [|done].
  specialize (Hp c v E). destruct v; [lia | done].
Qed.

Lemma bump_empties_spec b c l t :
  mult c (bump_empties b l t) = mult c t + hits b c l
  ∧ (positive_twos t → positive_twos (bump_empties b l t)).
Proof.
  unfold bump_empties, hits. revert t.
  induction l as [|sq l IH]; intros t; simpl.
  - split; [lia | done].
  - destruct (IH (if is_none (cell_at b sq) then twos_bump sq t else t)) as [IHm IHp].
    rewrite IHm. rewrite filter_cons.
    destruct (is_none (cell_at b sq)) eqn:En.
    + rewrite mult_bump. split.
      * destruct (decide (sq = c)) as [->|Hne].
        -- rewrite decide_True by done. simpl. lia.
        -- rewrite decide_False by (intros [? _]; done). lia.
      * intros Hp. apply IHp. by apply positive_bump.
    + split; [|done]. case_decide as Hc; [|lia]. destruct Hc; congruence.
Qed.

Lemma hits_NoDup b c l :
  NoDup l →
  hits b c l = if decide (c ∈ l ∧ cell_at b c = None) then 1 else 0.
Proof.
  unfold hits. induction 1 as [|sq l Hnin Hnd IH].
  - rewrite filter_nil, decide_False; [done|]. intros [H _]. inversion H.
  - rewrite filter_cons.
    destruct (decide (sq = c ∧ is_none (cell_at b sq) = true)) as [[Hsq Hn]|Hc].
    + subst sq. simpl. rewrite IH.
      rewrite (decide_False (P := c ∈ l ∧ _)) by (intros [? _]; done).
      rewrite decide_True; [done|]. split; [left|].
      by destruct (cell_at b c).
    + rewrite IH. apply not_and_l in Hc.
      destruct (decide (c ∈ l ∧ cell_at b c = None)) as [[Hin Hn]|Hno].
      * rewrite decide_True; [done|]. split; [by right | done].
      * rewrite decide_False; [done|]. intros [Hin Hn].
        apply elem_of_cons in Hin as [->|Hin]; [|by apply Hno].
        destruct Hc as [Hc|Hc]; [done|]. rewrite Hn in Hc. by apply Hc.
Qed.

(** On a line of three cells the test of the code, "[m] occurs and two
    cells are empty", says that [m] occurs exactly once. *)
Lemma is_two_spec b m three :
  length three = 3 →
  is_two b m three = true ↔ count_mark b m three = 1 ∧ count_empty b three = 2.
Proof.
  intros Hlen.
  destruct three as [|p [|q [|r [|]]]]; simpl in Hlen; try lia. clear Hlen.
  unfold is_two, count_mark, count_empty, holds.
  simpl map. rewrite !filter_cons, !filter_nil.
  destruct (cell_at b p) as [[]|], (cell_at b q) as [[]|], (cell_at b r) as [[]|],
    m; vm_compute;
    (split; [ intros H; try discriminate H; by split
            | intros [H1 H2]; try discriminate H1; try discriminate H2; reflexivity ]).
Qed.

Lemma threes_shape three : three ∈ threes → length three = 3 ∧ NoDup three.
Proof.
  intros H.
  assert (Forall (λ l : list nat, length l = 3 ∧ NoDup l) threes) as HF.
  { unfold threes. repeat first [apply Forall_nil_2 | apply Forall_cons_2];
      (split; [reflexivity | apply (bool_decide_unpack _); reflexivity]). }
  rewrite Forall_forall in HF. by apply HF.
Qed.

Lemma check_for_twos_fold b m c (lines : list (list nat)) t :
  (∀ three, three ∈ lines → three ∈ threes) →
  let t' := foldl (λ acc three,
                     if is_two b m three then bump_empties b three acc else acc)
                  t lines in
  mult c t' = mult c t + length (filter (two_through b m c) lines)
  ∧ (positive_twos t → positive_twos t').
Proof.
  revert t. induction lines as [|three lines IH]; intros t Hsub; simpl.
  - split; [lia | done].
  - assert (three ∈ threes) as Hin by (apply Hsub; left).
    destruct (threes_shape three Hin) as [Hlen Hnd].
    destruct (IH (if is_two b m three then bump_empties b three t else t))
      as [IHm IHp]; [intros; apply Hsub; by right|].
    rewrite IHm. rewrite filter_cons.
    destruct (bump_empties_spec b c three t) as [Hm Hp].
    destruct (is_two b m three) eqn:E2.
    + apply is_two_spec in E2 as [H1 H2]; [|done].
      rewrite Hm, hits_NoDup by done. split; [|auto].
      destruct (decide (two_through b m c three)) as [Hq|Hq].
      * destruct Hq as (Hc & _ & _ & Hn). rewrite decide_True by done.
        simpl. lia.
      * rewrite decide_False; [lia|]. intros [Hc Hn]. by apply Hq.
    + split; [|done]. case_decide as Hq; [|lia].
      destruct Hq as (_ & H1 & H2 & _).
      assert (is_two b m three = true) by (by apply is_two_spec). congruence.
Qed.

Lemma check_for_twos_mult b m c :
  mult c (check_for_twos b m) = lines_through b m c
  ∧ positive_twos (check_for_twos b m).
Proof.
  destruct (check_for_twos_fold b m c threes []) as [Hm Hp]; [done|].
  cbv zeta in Hm, Hp. change (mult c []) with 0 in Hm.
  split; [exact Hm|]. apply Hp. intros k v. discriminate.
Qed.

(** C4: the multiplicity stored for a cell is the number of lines through
    it on which [m] holds exactly one cell and the other two, the cell among
    them, are empty; a cell on no such line is not a key. *)
Theorem check_for_twos_multiplicity (b : list cell) (m : mark) (c : nat) :
  wf_board b →
  twos_get c (check_for_twos b m)
  = if lines_through b m c =? 0 then None else Some (lines_through b m c).
Proof.
  intros _. destruct (check_for_twos_mult b m c) as [Hm Hp].
  rewrite positive_get by done. by rewrite Hm.
Qed.

Lemma check_for_twos_multiplicity_witness :
  twos_get 2 (check_for_twos
                [Some X; None; None; None; Some O; None; None; None; Some X] X)
  = Some 2.
Proof.
  exact (check_for_twos_multiplicity
           [Some X; None; None; None; Some O; None; None; None; Some X] X 2
           eq_refl).
Defined.

Lemma or_else_answers_empty b r next :
  answers_empty b r → answers_empty b next → answers_empty b (r <|> next).
Proof.
  intros Hr Hn c Hc. apply or_else_Some in Hc as [Hc | [_ Hc]]; auto.
Qed.

Lemma is_none_true c : is_none c = true ↔ c = None.
Proof. destruct c; simpl; split; done. Qed.

Lemma first_empty_answer b three c :
  first_empty b three = Some c → c ∈ three ∧ cell_at b c = None.
Proof.
  intros H. apply for_return_Some in H as (sq & Hsq & H).
  destruct (is_none (cell_at b sq)) eqn:En; [|done].
  injection H as <-. split; [done | by apply is_none_true].
Qed.

Lemma check_for_wins_line b m c :
  check_for_wins b m = Some c →
  ∃ three, three ∈ threes ∧ count_mark b m three = 2
           ∧ c ∈ three ∧ cell_at b c = None.
Proof.
  intros H. apply for_return_Some in H as (three & Hin & H).
  destruct (count_mark b m three =? 2) eqn:E; [|done].
  apply Nat.eqb_eq in E. apply first_empty_answer in H as [Hc Hn]. eauto.
Qed.

Lemma check_for_wins_empty b m : answers_empty b (check_for_wins b m).
Proof.
  intros c H. apply check_for_wins_line in H as (three & Hin & _ & Hc & Hn).
  split; [by apply (threes_lt three) | done].
Qed.

Lemma fork_move_empty b m : answers_empty b (fork_move b m).
Proof.
  intros c H. apply for_return_Some in H as (i & Hi & H).
  apply elem_of_seq in Hi. unfold fork_at in H.
  destruct (is_none (cell_at b i)) eqn:En; [|done].
  destruct (size _ =? 2); [|done]. injection H as <-.
  split; [lia | by apply is_none_true].
Qed.

Lemma twos_keys_get c t : c ∈ twos_keys t → is_Some (twos_get c t).
Proof.
  unfold twos_keys. induction t as [|[k v] t IH]; simpl.
  - intros H. inversion H.
  - intros H. destruct (decide (k = c)) as [|Hne]; [by eexists|].
    apply elem_of_cons in H as [H|H]; [by subst | auto].
Qed.

Lemma check_for_twos_key b m c :
  c ∈ twos_keys (check_for_twos b m) → c < 9 ∧ cell_at b c = None.
Proof.
  intros H. apply twos_keys_get in H as [v Hv].
  destruct (check_for_twos_mult b m c) as [Hm Hp].
  assert (0 < lines_through b m c) as Hpos.
  { rewrite <- Hm. unfold mult. rewrite Hv. simpl. by apply (Hp c). }
  unfold lines_through in Hpos.
  destruct (filter (two_through b m c) threes) as [|three rest] eqn:E;
    [simpl in Hpos; lia|].
  assert (three ∈ filter (two_through b m c) threes) as Hin by (rewrite E; left).
  apply list_elem_of_filter in Hin as [(Hc & _ & _ & Hn) Hin].
  split; [by apply (threes_lt three) | done].
Qed.

Lemma force_move_empty b m : answers_empty b (force_move b m).
Proof.
  intros c H. apply for_return_Some in H as (i & Hi & H).
  unfold force_at in H. destruct (is_fork_point _ _); [done|].
  injection H as <-. by apply (check_for_twos_key b m).
Qed.

Lemma center_move_empty b : answers_empty b (center_move b).
Proof.
  intros c. unfold center_move.
  destruct (is_none (cell_at b 4)) eqn:En; [|done].
  intros [= <-]. split; [lia | by apply is_none_true].
Qed.

Lemma opposite_corner_move_empty b m : answers_empty b (opposite_corner_move b m).
Proof.
  intros c H. apply for_return_Some in H as (corner & Hin & H).
  unfold corners in Hin. rewrite !elem_of_cons, elem_of_nil in Hin.
  destruct Hin as [-> | [-> | [-> | [-> | []]]]];
    (change (maps !! _) with (Some 8) in H
     || change (maps !! _) with (Some 6) in H
     || change (maps !! _) with (Some 2) in H
     || change (maps !! _) with (Some 0) in H);
    cbv beta iota in H;
    destruct (bool_decide _); simpl in H; try done;
    match type of H with
    | (if is_none ?x then _ else _) = _ => destruct (is_none x) eqn:En; [|done]
    end;
    injection H as <-; (split; [lia | by apply is_none_true]).
Qed.

Lemma first_of_answer b cells c :
  first_of b cells = Some c → c ∈ cells ∧ cell_at b c = None.
Proof.
  unfold first_of. intros H. apply head_Some_elem_of in H.
  apply list_elem_of_filter in H as [Hn Hin].
  split; [done | by apply is_none_true].
Qed.

Lemma first_of_empty b cells :
  Forall (λ sq, sq < 9) cells → answers_empty b (first_of b cells).
Proof.
  intros HF c H. apply first_of_answer in H as [Hin Hn].
  rewrite Forall_forall in HF. auto.
Qed.

Lemma first_of_None b cells sq :
  first_of b cells = None → sq ∈ cells → cell_at b sq ≠ None.
Proof.
  unfold first_of. intros H Hin Hn.
  destruct (filter _ cells) as [|x l] eqn:E; [|done].
  assert (sq ∈ filter (λ sq, is_none (cell_at b sq) = true) cells) as Hf.
  { apply list_elem_of_filter. split; [by apply is_none_true | done]. }
  rewrite E in Hf. inversion Hf.
Qed.

Lemma move_answers_empty b m : answers_empty b (move b m).
Proof.
  assert (Forall (λ sq, sq < 9) corners ∧ Forall (λ sq, sq < 9) sides) as [Hc Hs].
  { unfold corners, sides.
    split; repeat first [apply Forall_nil_2 | apply Forall_cons_2]; lia. }
  unfold move, move_from_rule5.
  apply or_else_answers_empty; [apply check_for_wins_empty|].
  apply or_else_answers_empty; [apply check_for_wins_empty|].
  apply or_else_answers_empty; [apply fork_move_empty|].
  apply or_else_answers_empty; [apply force_move_empty|].
  apply or_else_answers_empty; [apply fork_move_empty|].
  apply or_else_answers_empty; [apply center_move_empty|].
  apply or_else_answers_empty; [apply opposite_corner_move_empty|].
  apply or_else_answers_empty; by apply first_of_empty.
Qed.

(** Rules 6, 8 and 9 look at every cell of the board. *)
Lemma last_rules_cover b i :
  i < 9 → cell_at b i = None →
  is_Some (center_move b) ∨ is_Some (first_of b corners) ∨ is_Some (first_of b sides).
Proof.
  intros Hi Hn.
  destruct (center_move b) eqn:E6; [left; by eexists|].
  destruct (first_of b corners) eqn:E8; [right; left; by eexists|].
  destruct (first_of b sides) eqn:E9; [right; right; by eexists|].
  exfalso.
  unfold center_move in E6.
  assert (cell_at b 4 ≠ None) as H4.
  { intros H. rewrite H in E6. done. }
  pose proof (λ sq, first_of_None b corners sq E8) as Hc.
  pose proof (λ sq, first_of_None b sides sq E9) as Hs.
  unfold corners in Hc. unfold sides in Hs.
  assert (i = 4 ∨ i ∈ [0; 2; 6; 8] ∨ i ∈ [1; 3; 5; 7]) as [-> | [Hin | Hin]].
  { do 9 (destruct i as [|i]; [rewrite !elem_of_cons; lia|]). lia. }
  - by apply H4.
  - by apply (Hc i).
  - by apply (Hs i).
Qed.

(** C2: on a board with an empty cell [move] returns a cell, that cell is
    empty, and the end of the function is not reached, since rules 6, 8
    and 9 between them try every cell. *)
Theorem move_on_open_board (b : list cell) (m : mark) :
  wf_board b → has_empty b →
  (∃ c, move b m = Some c ∧ b !! c = Some None)
  ∧ (is_Some (center_move b) ∨ is_Some (first_of b corners)
     ∨ is_Some (first_of b sides)).
Proof.
  intros Hwf [i Hi].
  assert (i < 9) as Hlt by (rewrite <- Hwf; by apply lookup_lt_Some in Hi).
  assert (cell_at b i = None) as Hn by (unfold cell_at; by rewrite Hi).
  pose proof (last_rules_cover b i Hlt Hn) as Hcover.
  split; [|done].
  destruct (move b m) as [c|] eqn:E.
  - exists c. split; [done|].
    destruct (move_answers_empty b m c E) as [Hc Hcn].
    rewrite cell_at_lookup by (rewrite Hwf; done). by rewrite Hcn.
  - exfalso. unfold move, move_from_rule5 in E.
    apply or_else_None in E as [_ E]. apply or_else_None in E as [_ E].
    apply or_else_None in E as [_ E]. apply or_else_None in E as [_ E].
    apply or_else_None in E as [_ E]. apply or_else_None in E as [E6 E].
    apply or_else_None in E as [_ E]. apply or_else_None in E as [E8 E9].
    destruct Hcover as [[? H]|[[? H]|[? H]]]; congruence.
Qed.

Lemma move_on_open_board_witness :
  ∃ c, move scenario2 O = Some c ∧ scenario2 !! c = Some None.
Proof.
  apply (move_on_open_board scenario2 O).
  - reflexivity.
  - exists 6. reflexivity.
Defined.

(** ** The store: queries and look-ahead leave the live match alone *)

Lemma view_weaken h h' self g :
  h ⊆ h' → view h self = Some g → view h' self = Some g.
Proof.
  unfold view. intros Hsub Hv.
  destruct (h !! self) as [[r n|]|] eqn:E1; try done.
  destruct (h !! r) as [[|cs]|] eqn:E2; try done.
  rewrite (lookup_weaken _ _ _ _ E1 Hsub), (lookup_weaken _ _ _ _ E2 Hsub). done.
Qed.

Section Preserves.
Context (self : loc) (g : game).

Lemma preserves_ret {A} (a : A) : preserves self g (mret a) a.
Proof. intros h _. exists h. done. Qed.

Lemma preserves_bind {A B} (c : M A) (k : A → M B) a b :
  preserves self g c a → preserves self g (k a) b →
  preserves self g (c ≫= k) b.
Proof.
  intros Hc Hk h Hv. destruct (Hc h Hv) as (h1 & E1 & Hs1).
  destruct (Hk h1 (view_weaken _ _ _ _ Hs1 Hv)) as (h2 & E2 & Hs2).
  exists h2. split; [|by etrans].
  unfold mbind, M_bind. by rewrite E1.
Qed.

Lemma preserves_read : preserves self g (read_game self) g.
Proof. intros h Hv. exists h. unfold read_game. by rewrite Hv. Qed.

Lemma preserves_query {A} (f : game → A) :
  preserves self g (x ← read_game self; mret (f x)) (f g).
Proof. eapply preserves_bind; [apply preserves_read | apply preserves_ret]. Qed.

Lemma preserves_or_elseM {A} (c next : M (option A)) r r' :
  preserves self g c r → preserves self g next r' →
  preserves self g (or_elseM c next) (r <|> r').
Proof.
  intros Hc Hn. unfold or_elseM. eapply preserves_bind; [exact Hc|].
  destruct r; [apply preserves_ret | exact Hn].
Qed.

Lemma preserves_for_returnM {A B} (body : A → M (option B)) f l :
  (∀ x, x ∈ l → preserves self g (body x) (f x)) →
  preserves self g (for_returnM body l) (for_return f l).
Proof.
  induction l as [|x l IH]; intros Hb; simpl.
  - apply preserves_ret.
  - eapply preserves_bind; [apply Hb; left|].
    destruct (f x); [apply preserves_ret|].
    apply IH. intros y Hy. apply Hb. by right.
Qed.
End Preserves.

(** [deepcopy] gives a reference to an equal match built from new objects:
    a write through the copy shows in the copy and nowhere else. *)
Lemma dc_store_spec h self g :
  view h self = Some g →
  ∃ hypo h1,
    dc self h = Some (hypo, h1) ∧ h ⊆ h1 ∧ view h1 hypo = Some g
    ∧ ∀ i v, i < length (board g) →
        ∃ h2, store_cell hypo i v h1 = Some ((), h2) ∧ h ⊆ h2
              ∧ view h2 hypo = Some (Game (<[i := v]> (board g)) (moves g)).
Proof.
  unfold view, dc. intros Hv.
  destruct (h !! self) as [[r n|]|] eqn:E1; try done.
  destruct (h !! r) as [[|cs]|] eqn:E2; try done.
  injection Hv as <-. simpl.
  set (r' := fresh (dom h)).
  set (h0 := <[r' := OList cs]> h).
  set (hypo := fresh (dom h0)).
  assert (h !! r' = None) as Hr'.
  { apply not_elem_of_dom. apply is_fresh. }
  assert (h0 !! hypo = None) as Hhypo.
  { apply not_elem_of_dom. apply is_fresh. }
  assert (hypo ≠ r') as Hne.
  { intros Heq. rewrite Heq in Hhypo. unfold h0 in Hhypo.
    by rewrite lookup_insert_eq in Hhypo. }
  assert (h !! hypo = None) as Hhypo'.
  { unfold h0 in Hhypo. by rewrite lookup_insert_ne in Hhypo. }
  assert (h ⊆ <[hypo := OGame r' n]> h0) as Hsub.
  { apply insert_subseteq_r; [done|]. by apply insert_subseteq. }
  exists hypo, (<[hypo := OGame r' n]> h0).
  split; [done|]. split; [done|]. split.
  - rewrite lookup_insert_eq, lookup_insert_ne by done.
    unfold h0. by rewrite lookup_insert_eq.
  - intros i v Hi. unfold store_cell.
    rewrite lookup_insert_eq, lookup_insert_ne by done.
    unfold h0 at 1. rewrite lookup_insert_eq.
    rewrite decide_True by done.
    eexists. split; [done|]. split.
    + by apply insert_subseteq_r.
    + rewrite lookup_insert_ne by done.
      by rewrite lookup_insert_eq, lookup_insert_eq.
Qed.

Lemma preserves_fork_atM self g m i :
  i < length (board g) →
  preserves self g (fork_atM self m i) (fork_at (board g) m i).
Proof.
  intros Hi h Hv.
  destruct (dc_store_spec h self g Hv) as (hypo & h1 & Edc & Hs1 & Hv1 & Hst).
  unfold fork_atM, fork_at, mbind, M_bind. rewrite Edc.
  unfold read_game at 1. rewrite Hv1.
  destruct (is_none (cell_at (board g) i)).
  - destruct (Hst i (Some m) Hi) as (h2 & Est & Hs2 & Hv2).
    rewrite Est. unfold read_game. rewrite Hv2. simpl. eauto.
  - eauto.
Qed.

Lemma preserves_force_atM self g m i :
  i < length (board g) →
  preserves self g (force_atM self m i) (force_at (board g) m i).
Proof.
  intros Hi h Hv.
  destruct (dc_store_spec h self g Hv) as (hypo & h1 & Edc & Hs1 & Hv1 & Hst).
  destruct (Hst i (Some m) Hi) as (h2 & Est & Hs2 & Hv2).
  unfold force_atM, force_at, check_for_winsM, check_for_twosM, mbind, M_bind.
  unfold read_game, mret, M_ret.
  rewrite Edc, Est. cbv beta iota. rewrite Hv2. cbv beta iota. rewrite Hv2.
  exists h2. split; [reflexivity | done].
Qed.

(** [computer.move] on a reference computes [move] on the cells of the
    match and leaves the store it was given in place. *)
Lemma preserves_moveM self g m :
  wf_board (board g) →
  preserves self g (moveM self m) (move (board g) m).
Proof.
  intros Hwf. unfold moveM, move, move_from_rule5.
  assert (∀ mk, preserves self g (for_returnM (fork_atM self mk) (seq 0 9))
                  (fork_move (board g) mk)) as Hfork.
  { intros mk. apply preserves_for_returnM. intros i Hi.
    apply preserves_fork_atM. apply elem_of_seq in Hi. rewrite Hwf. lia. }
  apply preserves_or_elseM; [apply (preserves_query self g (λ x, check_for_wins (board x) m))|].
  apply preserves_or_elseM;
    [apply (preserves_query self g (λ x, check_for_wins (board x) (other_mark m)))|].
  apply preserves_or_elseM; [apply Hfork|].
  apply preserves_or_elseM.
  { unfold force_moveM, check_for_twosM.
    eapply preserves_bind;
      [apply (preserves_query self g (λ x, check_for_twos (board x) m))|].
    apply preserves_for_returnM. intros i Hi.
    apply preserves_force_atM. apply check_for_twos_key in Hi as [Hi _].
    rewrite Hwf. done. }
  apply preserves_or_elseM; [apply Hfork|].
  apply preserves_or_elseM; [apply (preserves_query self g (λ x, center_move (board x)))|].
  apply preserves_or_elseM;
    [apply (preserves_query self g (λ x, opposite_corner_move (board x) m))|].
  apply preserves_or_elseM.
  - apply (preserves_query self g (λ x, first_of (board x) corners)).
  - apply (preserves_query self g (λ x, first_of (board x) sides)).
Qed.

(** C9: [winner], [check_for_wins] and [check_for_twos] return what the
    cells of the match determine and leave the store as it is; [move] does
    the same up to the copies it has allocated, which the match does not
    refer to, so that board and move count are unchanged and a second call
    returns the same cell. *)
Theorem queries_leave_match (h : gmap loc obj) (self : loc) (g : game) (m : mark) :
  view h self = Some g → wf_board (board g) →
  winnerM self h = Some (winner (board g), h)
  ∧ check_for_winsM self m h = Some (check_for_wins (board g) m, h)
  ∧ check_for_twosM self m h = Some (check_for_twos (board g) m, h)
  ∧ ∃ h', moveM self m h = Some (move (board g) m, h')
          ∧ h ⊆ h' ∧ view h' self = Some g
          ∧ ∃ h'', moveM self m h' = Some (move (board g) m, h'')
                   ∧ view h'' self = Some g.
Proof.
  intros Hv Hwf.
  unfold winnerM, check_for_winsM, check_for_twosM, mbind, M_bind, read_game.
  rewrite Hv. repeat (split; [reflexivity|]).
  destruct (preserves_moveM self g m Hwf h Hv) as (h' & E & Hsub).
  pose proof (view_weaken _ _ _ _ Hsub Hv) as Hv'.
  destruct (preserves_moveM self g m Hwf h' Hv') as (h'' & E' & Hsub').
  pose proof (view_weaken _ _ _ _ Hsub' Hv') as Hv''.
  eauto 10.
Qed.

Lemma queries_leave_match_witness :
  ∃ h', moveM 0 X (store_of (Game scenario2 6)) = Some (Some 8, h')
        ∧ view h' 0 = Some (Game scenario2 6).
Proof.
  destruct (queries_leave_match (store_of (Game scenario2 6)) 0 (Game scenario2 6) X)
    as (_ & _ & _ & h' & E & _ & Hv & _).
  - reflexivity.
  - reflexivity.
  - exists h'. split; [exact E | exact Hv].
Defined.

(** ** The player on a full board *)

(** C10: on a board without an empty cell no rule of [move] returns, and
    the call ends with the value None; nothing is raised. *)
Theorem move_on_full_board (b : list cell) (m : mark) :
  wf_board b → ¬ has_empty b →
  move b m = None
  ∧ ∀ h self n, view h self = Some (Game b n) →
      ∃ h', moveM self m h = Some (None, h').
Proof.
  intros Hwf Hfull.
  assert (move b m = None) as Hmove.
  { destruct (move b m) as [c|] eqn:E; [|done].
    destruct (move_answers_empty b m c E) as [Hc Hn].
    destruct Hfull. exists c.
    rewrite cell_at_lookup by (rewrite Hwf; done). by rewrite Hn. }
  split; [done|]. intros h self n Hv.
  destruct (preserves_moveM self (Game b n) m Hwf h Hv) as (h' & E & _).
  simpl in E. rewrite Hmove in E. eauto.
Qed.

Lemma move_on_full_board_witness : move drawn_board X = None.
Proof.
  apply (move_on_full_board drawn_board X).
  - reflexivity.
  - intros [i Hi].
    do 9 (destruct i as [|i]; [discriminate Hi|]). discriminate Hi.
Defined.

(** ** Rule 4 *)

Lemma is_fork_point_spec b m i :
  is_fork_point (check_for_wins (<[i := Some m]> b) m)
                (check_for_twos (<[i := Some m]> b) (other_mark m)) = true
  ↔ opponent_fork_point b m i.
Proof.
  unfold opponent_fork_point, is_fork_point. cbv zeta.
  destruct (check_for_wins _ m) as [w|].
  - destruct (twos_get w _) as [n|] eqn:E.
    + rewrite Nat.ltb_lt. split.
      * intros Hn. exists w, n. done.
      * intros (w' & n' & [= <-] & Hn' & Hlt). congruence.
    + split; [done|]. intros (w' & n' & [= <-] & Hn' & _). congruence.
  - split; [done|]. intros (w' & n' & Hw & _). done.
Qed.

Lemma force_at_Some b m i j :
  force_at b m i = Some j ↔ j = i ∧ ¬ opponent_fork_point b m i.
Proof.
  unfold force_at. cbv zeta. rewrite <- is_fork_point_spec.
  destruct (is_fork_point _ _); split; try done.
  - by intros [_ []].
  - intros [= <-]. done.
  - intros [-> _]. done.
Qed.

(** A loop that returns the first element passing a test: the elements
    before it fail the test. *)
Lemma for_return_first {A} (body : A → option A) (P : A → Prop) l i :
  (∀ x y, body x = Some y ↔ y = x ∧ P x) →
  for_return body l = Some i
  ↔ ∃ pre post, l = pre ++ i :: post ∧ (∀ j, j ∈ pre → ¬ P j) ∧ P i.
Proof.
  intros Hbody. induction l as [|x l IH]; simpl.
  - split; [done|]. intros (pre & post & E & _). by destruct pre.
  - destruct (body x) as [y|] eqn:Ex.
    + apply Hbody in Ex as [-> HP]. split.
      * intros [= ->]. exists [], l. split; [done|]. split; [|done].
        intros j Hj. inversion Hj.
      * intros (pre & post & E & Hpre & Hi).
        destruct pre as [|p pre]; simpl in E; injection E as E1 E2.
        -- by rewrite E1.
        -- exfalso. apply (Hpre p); [left | by rewrite <- E1].
    + assert (¬ P x) as Hx.
      { intros HP. assert (body x = Some x) as E by (by apply Hbody). congruence. }
      rewrite IH. split.
      * intros (pre & post & -> & Hpre & Hi). exists (x :: pre), post.
        split; [done|]. split; [|done].
        intros j Hj. apply elem_of_cons in Hj as [->|Hj]; auto.
      * intros (pre & post & E & Hpre & Hi).
        destruct pre as [|p pre]; simpl in E; injection E as E1 E2.
        -- exfalso. apply Hx. by rewrite E1.
        -- exists pre, post. split; [done|]. split; [|done].
           intros j Hj. apply Hpre. by right.
Qed.

(** New keys go to the end of the dictionary; a key that is present keeps
    its place. *)
Lemma twos_keys_bump k t :
  twos_keys (twos_bump k t)
  = if decide (k ∈ twos_keys t) then twos_keys t else twos_keys t ++ [k].
Proof.
  unfold twos_keys. induction t as [|[k' v] t IH].
  - done.
  - cbn [twos_bump].
    destruct (decide (k' = k)) as [->|Hne]; rewrite !fmap_cons; cbn [fst].
    + rewrite decide_True; [done | left].
    + rewrite IH. destruct (decide (k ∈ t.*1)) as [Hin|Hnin].
      * rewrite decide_True; [done | by right].
      * rewrite decide_False; [done|].
        intros H. apply elem_of_cons in H as [->|H]; done.
Qed.

(** C6: when rules 1 to 3 return nothing, [move] plays the first key of
    [check_for_twos] for its own mark, in the order of insertion, that is
    not an opponent fork point, skipping the keys before it; with no such
    key, and in particular with no key at all, it goes on with rule 5. *)
Theorem rule4_plays_first_safe_candidate (b : list cell) (m : mark) :
  wf_board b →
  check_for_wins b m = None →
  check_for_wins b (other_mark m) = None →
  fork_move b m = None →
  (∀ i, force_move b m = Some i
        ↔ ∃ skipped rest,
            twos_keys (check_for_twos b m) = skipped ++ i :: rest
            ∧ (∀ j, j ∈ skipped → opponent_fork_point b m j)
            ∧ ¬ opponent_fork_point b m i)
  ∧ (∀ i, force_move b m = Some i → move b m = Some i)
  ∧ (force_move b m = None → move b m = move_from_rule5 b m)
  ∧ (check_for_twos b m = [] → move b m = move_from_rule5 b m).
Proof.
  intros _ H1 H2 H3.
  assert (move b m = force_move b m <|> move_from_rule5 b m) as Hmove.
  { unfold move. by rewrite H1, H2, H3. }
  split; [|split; [|split]].
  - intros i. unfold force_move.
    rewrite (for_return_first (force_at b m) (λ i, ¬ opponent_fork_point b m i));
      [|apply force_at_Some].
    split; intros (skipped & rest & E & Hs & Hi); exists skipped, rest;
      (split; [done|]); (split; [|done]); intros j Hj.
    + specialize (Hs j Hj). rewrite <- is_fork_point_spec in Hs |- *.
      destruct (is_fork_point _ _); [done | destruct Hs; discriminate].
    + specialize (Hs j Hj). tauto.
  - intros i Hi. by rewrite Hmove, Hi.
  - intros Hn. by rewrite Hmove, Hn.
  - intros Ht. rewrite Hmove. unfold force_move. by rewrite Ht.
Qed.

Lemma rule4_plays_first_safe_candidate_witness :
  force_move rule4_board X = Some 8 ∧ move rule4_board X = Some 8.
Proof.
  destruct (rule4_plays_first_safe_candidate rule4_board X)
    as (_ & Hplay & _); [reflexivity | reflexivity | reflexivity | reflexivity |].
  split; [reflexivity | apply Hplay; reflexivity].
Defined.

(** On [rule4_board] the first candidate, 7, is skipped: with X at 7 the
    winning cell 8 lies on two lines that O could open. *)
Example rule4_board_skips_7 :
  twos_keys (check_for_twos rule4_board X) = [7; 8; 0; 3]
  ∧ opponent_fork_point rule4_board X 7
  ∧ ¬ opponent_fork_point rule4_board X 8.
Proof.
  split; [reflexivity|]. split.
  - exists 8, 2. repeat split. lia.
  - rewrite <- is_fork_point_spec. discriminate.
Qed.

(** ** check_move and the loop of play *)

Lemma check_move_true g mv :
  check_move g mv = true
  ↔ ∃ z, mv = PyInt z ∧ (0 ≤ z ≤ 8)%Z ∧ cell_at (board g) (Z.to_nat z) = None.
Proof.
  unfold check_move. destruct mv as [z|].
  - destruct (z >? 8)%Z eqn:E8; simpl.
    { split; [done|]. intros (z' & [= <-] & Hz & _). lia. }
    destruct (z <? 0)%Z eqn:E0; simpl.
    { split; [done|]. intros (z' & [= <-] & Hz & _). lia. }
    destruct (cell_at (board g) (Z.to_nat z)) as [c|] eqn:Ec; simpl.
    + split; [done|]. intros (z' & [= <-] & _ & Hn). congruence.
    + split; [|done]. intros _. exists z. repeat split; [lia | lia | done].
  - split; [done|]. intros (z & Hz & _). done.
Qed.

Lemma ask_move_accepts fuel ps g t m t' :
  ask_move fuel ps g t = Some (m, t') →
  m < 9 ∧ cell_at (board g) m = None.
Proof.
  revert t. induction fuel as [|fuel IH]; intros t; simpl; [done|].
  destruct (check_move g (turn ps g t g)) eqn:E; [|apply IH].
  apply check_move_true in E as (z & -> & Hz & Hn).
  intros [= <- <-]. split; [lia | done].
Qed.

Lemma mod2_even n : (n mod 2 =? 0) = Nat.even n.
Proof.
  pose proof (Nat.div_mod_eq n 2) as Hdm.
  pose proof (Nat.mod_upper_bound n 2) as Hub.
  destruct (Nat.even n) eqn:E.
  - apply Nat.even_spec in E as [k Hk]. apply Nat.eqb_eq. lia.
  - apply Nat.eqb_neq. intros H.
    assert (Nat.even n = true); [|congruence].
    apply Nat.even_spec. exists (n / 2). lia.
Qed.

Lemma occupied_insert (b : list cell) i m :
  b !! i = Some None → occupied (<[i := Some m]> b) = S (occupied b).
Proof.
  unfold occupied. revert i. induction b as [|c b IH]; intros [|i] H; try done.
  - injection H as ->.
    change (<[0 := Some m]> (None :: b)) with (Some m :: b).
    rewrite !filter_cons, decide_True by done.
    rewrite decide_False by (intros Hn; by apply Hn). done.
  - change (<[S i := Some m]> (c :: b)) with (c :: <[i := Some m]> b).
    rewrite !filter_cons. specialize (IH i H).
    repeat case_decide; try done; cbn [length];
      first [exact IH | f_equal; exact IH].
Qed.

Lemma apply_move_ok g m :
  m < length (board g) → cell_at (board g) m = None →
  moves g = occupied (board g) →
  applied_ok (Applied g m (apply_move g m)).
Proof.
  intros Hm Hn Hinv. unfold applied_ok, apply_move, mark_to_play.
  cbn [before after played board moves].
  assert (board g !! m = Some None) as He.
  { rewrite cell_at_lookup by done. by rewrite Hn. }
  rewrite mod2_even. repeat split; try done.
  - intros i c Hi. rewrite list_lookup_insert_ne; [done|].
    intros ->. congruence.
  - lia.
  - rewrite occupied_insert by done. lia.
Qed.

Lemma play_loop_invariant fuel ps t g w :
  wf_board (board g) → moves g = occupied (board g) →
  let tr := (play_loop fuel ps t g w).1 in
  chained g tr ∧ Forall applied_ok tr.
Proof.
  revert t g w. induction fuel as [|fuel IH]; intros t g w Hwf Hinv; simpl.
  - destruct (_ && _); simpl; done.
  - destruct (_ && _); simpl; [|done].
    destruct (ask_move fuel ps g t) as [[m t']|] eqn:Ea; simpl; [|done].
    apply ask_move_accepts in Ea as [Hm Hn].
    assert (applied_ok (Applied g m (apply_move g m))) as Hok.
    { apply apply_move_ok; [by rewrite Hwf | done | done]. }
    destruct (IH t' (apply_move g m) (winner (board (apply_move g m))))
      as [Hch Hall].
    + unfold wf_board, apply_move. simpl. by rewrite length_insert.
    + destruct Hok as (_ & _ & _ & _ & Hocc). exact Hocc.
    + destruct (play_loop fuel ps t' (apply_move g m) _) as [tr r].
      simpl in *. split; [done|]. by constructor.
Qed.

(** C7: in every run of [play] on a new match, each applied move goes to
    an empty cell and leaves the other cells alone, writes X on an even
    move count and O on an odd one, and leaves the move count equal to the
    number of occupied cells. *)
Theorem play_invariant (fuel : nat) (ps : players) :
  moves new_game = occupied (board new_game)
  ∧ chained new_game (play fuel ps new_game).1
  ∧ Forall applied_ok (play fuel ps new_game).1.
Proof.
  split; [reflexivity|].
  apply (play_loop_invariant fuel ps 0 new_game None); reflexivity.
Qed.

(** Two computers against each other: nine moves are applied and the
    match is drawn. *)
Example computers_draw :
  length (play 30 (computer X, computer O) new_game).1 = 9
  ∧ (play 30 (computer X, computer O) new_game).2
    = Some (Game [Some O; Some X; Some X; Some X; Some X; Some O;
                  Some O; Some O; Some X] 9, None).
Proof. split; vm_compute; reflexivity. Qed.

Lemma play_loop_stop fuel ps t g w :
  (moves g <? 9) && negb (bool_decide (is_Some w)) = false →
  play_loop fuel ps t g w = ([], Some (g, w)).
Proof. intros H. destruct fuel; simpl; by rewrite H. Qed.

Lemma play_loop_step fuel ps t g w :
  (moves g <? 9) && negb (bool_decide (is_Some w)) = true →
  play_loop (S fuel) ps t g w
  = match ask_move fuel ps g t with
    | None => ([], None)
    | Some (m, t') =>
        let g' := apply_move g m in
        let '(tr, r) := play_loop fuel ps t' g' (winner (board g')) in
        (Applied g m g' :: tr, r)
    end.
Proof. intros H. simpl. by rewrite H. Qed.

(** The loop that asks for a move returns the first accepted proposal of
    the participant whose turn it is in [g], after asking once more for
    every proposal refused before it. *)
Lemma ask_move_first_accepted fuel ps g t c t' :
  ask_move fuel ps g t = Some (c, t')
  ↔ ∃ k, k < fuel ∧ t' = S (t + k) ∧ first_accepted ps g t k c.
Proof.
  unfold first_accepted. revert t. induction fuel as [|fuel IH]; intros t.
  - simpl. split; [done|]. intros (k & Hk & _). lia.
  - cbn [ask_move]. destruct (check_move g (turn ps g t g)) eqn:E.
    + pose proof E as E'. apply check_move_true in E' as (z & Hz & Hr & Hn).
      rewrite Hz. split.
      * intros [= <- <-]. exists 0. rewrite !Nat.add_0_r.
        split; [lia|]. split; [done|]. split; [intros j Hj; lia|].
        rewrite Z2Nat.id by lia. split; [done|]. by rewrite <- Hz.
      * intros (k & Hk & -> & Href & Hturn & Hacc). destruct k as [|k].
        -- rewrite Nat.add_0_r in Hturn |- *. rewrite Hz in Hturn.
           injection Hturn as ->. by rewrite Nat2Z.id.
        -- assert (0 < S k) as H0 by lia. specialize (Href 0 H0).
           rewrite Nat.add_0_r in Href. congruence.
    + rewrite IH. split.
      * intros (k & Hk & -> & Href & Hturn & Hacc). exists (S k).
        split; [lia|]. split; [lia|]. split; [|split; [|done]].
        -- intros j Hj. destruct j as [|j]; [by rewrite Nat.add_0_r|].
           rewrite <- Nat.add_succ_comm. apply Href. lia.
        -- by rewrite <- Nat.add_succ_comm.
      * intros (k & Hk & -> & Href & Hturn & Hacc). destruct k as [|k].
        -- rewrite Nat.add_0_r in Hturn. rewrite Hturn in E. congruence.
        -- exists k. split; [lia|]. split; [lia|]. split; [|split; [|done]].
           ++ intros j Hj. rewrite Nat.add_succ_comm. apply Href. lia.
           ++ by rewrite Nat.add_succ_comm.
Qed.

(** It gives up only when the fuel is spent on refused proposals. *)
Lemma ask_move_all_refused fuel ps g t :
  ask_move fuel ps g t = None
  ↔ ∀ j, j < fuel → check_move g (turn ps g (t + j) g) = false.
Proof.
  revert t. induction fuel as [|fuel IH]; intros t.
  - simpl. split; [intros _ j Hj; lia | done].
  - cbn [ask_move]. destruct (check_move g (turn ps g t g)) eqn:E.
    + pose proof E as E'. apply check_move_true in E' as (z & Hz & _).
      rewrite Hz. split; [done|]. intros Hall.
      assert (0 < S fuel) as H0 by lia. specialize (Hall 0 H0).
      rewrite Nat.add_0_r in Hall. congruence.
    + rewrite IH. split.
      * intros Hall j Hj. destruct j as [|j]; [by rewrite Nat.add_0_r|].
        rewrite <- Nat.add_succ_comm. apply Hall. lia.
      * intros Hall j Hj. rewrite Nat.add_succ_comm. apply Hall. lia.
Qed.

(** C8: [check_move] accepts exactly the integers from 0 to 8 whose cell
    is empty, and it changes nothing in the store.  The loop that asks for
    a move keeps asking [players[moves % 2]] of the same match: its result
    is the first accepted proposal, reached after one more request for
    every refusal, and it ends without a result only when all its requests
    were refused.  After a refusal of [mv] the move then applied is applied
    to the match as it was: board and move count did not change. *)
Theorem check_move_spec (g : game) (mv : pyval) :
  wf_board (board g) →
  (check_move g mv = true
   ↔ ∃ z, mv = PyInt z ∧ (0 ≤ z ≤ 8)%Z ∧ board g !! Z.to_nat z = Some None)
  ∧ (∀ h self, view h self = Some g →
       check_moveM self mv h = Some (check_move g mv, h))
  ∧ (∀ fuel ps t c t',
       ask_move fuel ps g t = Some (c, t')
       ↔ ∃ k, k < fuel ∧ t' = S (t + k) ∧ first_accepted ps g t k c)
  ∧ (∀ fuel ps t,
       ask_move fuel ps g t = None
       ↔ ∀ j, j < fuel → check_move g (turn ps g (t + j) g) = false)
  ∧ (check_move g mv = false →
     ∀ fuel ps t k c,
       turn ps g t g = mv → k < fuel → first_accepted ps g (S t) k c →
       ask_move (S fuel) ps g t = Some (c, S (S t + k))
       ∧ ∀ w, (moves g <? 9) && negb (bool_decide (is_Some w)) = true →
              ∃ tr r, play_loop (S (S fuel)) ps t g w
                      = (Applied g c (apply_move g c) :: tr, r)).
Proof.
  intros Hwf. split; [|split; [|split; [|split]]].
  - rewrite check_move_true. split.
    + intros (z & -> & Hz & Hn). exists z. split; [done|]. split; [done|].
      rewrite cell_at_lookup by (rewrite Hwf; lia). by rewrite Hn.
    + intros (z & -> & Hz & He). exists z. split; [done|]. split; [done|].
      unfold cell_at. by rewrite He.
  - intros h self Hv. unfold check_moveM, mbind, M_bind, read_game.
    by rewrite Hv.
  - intros fuel ps t c t'. apply ask_move_first_accepted.
  - intros fuel ps t. apply ask_move_all_refused.
  - intros Hrej fuel ps t k c Hturn Hk (Href & Hprop & Hacc).
    assert (ask_move (S fuel) ps g t = Some (c, S (S t + k))) as Hask.
    { apply ask_move_first_accepted. exists (S k).
      split; [lia|]. split; [lia|]. split; [|split; [|done]].
      - intros j Hj. destruct j as [|j].
        + by rewrite Nat.add_0_r, Hturn.
        + rewrite <- Nat.add_succ_comm. apply Href. lia.
      - by rewrite <- Nat.add_succ_comm. }
    split; [done|]. intros w Hcond.
    rewrite play_loop_step by done. rewrite Hask. cbv zeta.
    destruct (play_loop (S fuel) ps (S (S t + k)) (apply_move g c)
                (winner (board (apply_move g c)))) as [tr r].
    by exists tr, r.
Qed.

Lemma check_move_spec_witness :
  check_move (Game scenario2 6) (PyInt 6) = true
  ∧ check_move (Game scenario2 6) (PyInt 4) = false
  ∧ check_move (Game scenario2 6) (PyInt 9) = false
  ∧ check_move (Game scenario2 6) PyNone = false
  ∧ ask_move 5 (scripted [PyInt 4; PyInt 9; PyNone; PyInt 6],
                scripted [PyNone]) (Game scenario2 6) 0
    = Some (6, 4).
Proof.
  assert (wf_board (board (Game scenario2 6))) as Hwf by reflexivity.
  split; [|split; [reflexivity|split; [reflexivity|split; [reflexivity|]]]].
  - apply (check_move_spec (Game scenario2 6) (PyInt 6) Hwf).
    exists 6%Z. split; [reflexivity|]. split; [lia | reflexivity].
  - destruct (check_move_spec (Game scenario2 6) (PyInt 4) Hwf)
      as (_ & _ & _ & _ & Hagain).
    apply (Hagain eq_refl 4 _ 0 2 6).
    + reflexivity.
    + lia.
    + split; [|split; reflexivity].
      intros j Hj. destruct j as [|[|j]]; [reflexivity | reflexivity | lia].
Defined.

(** ** The second end-to-end scenario *)

(** C5, as the code has it: on [scenario2] rule 1 answers 8, the cell that
    completes the diagonal [0; 4; 8]; that line is declared before
    [2; 4; 6], whose completion would be 6. *)
Theorem scenario2_move :
  check_for_wins scenario2 X = Some 8
  ∧ move scenario2 X = Some 8
  ∧ count_mark scenario2 X [0; 4; 8] = 2
  ∧ first_empty scenario2 [0; 4; 8] = Some 8
  ∧ (∀ three, three ∈ take 6 threes →
       (if count_mark scenario2 X three =? 2
        then first_empty scenario2 three else None) = None).
Proof.
  repeat split.
  intros three Hin. simpl in Hin.
  rewrite !elem_of_cons, elem_of_nil in Hin.
  repeat (destruct Hin as [-> | Hin]; [reflexivity|]). done.
Qed.

(** C5 as stated fails: the move is not 6. *)
Lemma scenario2_move_counterexample : move scenario2 X ≠ Some 6.
Proof. discriminate. Qed.

(** * Further properties of the program *)

(** ** Winning cells *)

Lemma full_line_forallb b m three :
  forallb (holds b m) three = true ↔ full_line b m three.
Proof.
  unfold full_line. rewrite forallb_forall. split.
  - intros H sq Hsq. apply list_elem_of_In in Hsq.
    specialize (H sq Hsq). by apply bool_decide_eq_true in H.
  - intros H sq Hsq. apply bool_decide_eq_true. apply H.
    by apply list_elem_of_In.
Qed.

Lemma wins_atb_spec b m c : wins_atb b m c = true ↔ wins_at b m c.
Proof.
  unfold wins_atb, wins_at.
  rewrite andb_true_iff, is_none_true, existsb_exists. split.
  - intros [Hn (three & Hin & H)]. split; [done|].
    apply andb_true_iff in H as [Hc Hf].
    exists three. split; [by apply list_elem_of_In|].
    split; [by apply bool_decide_eq_true in Hc | by apply full_line_forallb].
  - intros [Hn (three & Hin & Hc & Hf)]. split; [done|].
    exists three. split; [by apply list_elem_of_In|].
    apply andb_true_iff. split; [by apply bool_decide_eq_true|].
    by apply full_line_forallb.
Qed.

Lemma wins_at_lt b m c : wins_at b m c → c < 9.
Proof. intros [_ (three & Hin & Hc & _)]. by apply (threes_lt three). Qed.

Lemma wins_complete_all :
  forallb (λ b, wins_complete_ok b X && wins_complete_ok b O) (all_boards 9) = true.
Proof. vm_compute. reflexivity. Qed.

Lemma wins_complete b m : wf_board b → wins_complete_ok b m = true.
Proof.
  intros Hwf. pose proof (forall_boards _ wins_complete_all b Hwf) as H.
  apply andb_true_iff in H as [HX HO]. by destruct m.
Qed.

Lemma check_for_wins_wins_at b m c :
  wf_board b → check_for_wins b m = Some c → wins_at b m c.
Proof.
  intros Hwf Hc. pose proof (wins_complete b m Hwf) as H.
  unfold wins_complete_ok in H. rewrite Hc in H. by apply wins_atb_spec.
Qed.

Lemma check_for_wins_None b m :
  wf_board b → check_for_wins b m = None ↔ ∀ c, ¬ wins_at b m c.
Proof.
  intros Hwf. pose proof (wins_complete b m Hwf) as H.
  unfold wins_complete_ok in H. split.
  - intros Hn c Hw. rewrite Hn in H. rewrite forallb_forall in H.
    specialize (H c). rewrite <- list_elem_of_In, elem_of_seq in H.
    pose proof (wins_at_lt b m c Hw) as Hlt.
    apply wins_atb_spec in Hw. rewrite Hw in H.
    assert (negb true = true) as Habs by (apply H; lia). discriminate Habs.
  - intros Hno. destruct (check_for_wins b m) as [c|] eqn:E; [|done].
    destruct (Hno c). by apply wins_atb_spec.
Qed.

(** X1: [check_for_wins] finds a winning cell whenever there is one: the
    cell it returns completes a line for [m], and it returns nothing
    exactly when no empty cell completes a line for [m]. *)
Theorem check_for_wins_complete (b : list cell) (m : mark) :
  wf_board b →
  (∀ c, check_for_wins b m = Some c → wins_at b m c)
  ∧ (check_for_wins b m = None ↔ ∀ c, ¬ wins_at b m c).
Proof.
  intros Hwf. split.
  - intros c. by apply check_for_wins_wins_at.
  - by apply check_for_wins_None.
Qed.

Lemma check_for_wins_complete_witness :
  wins_at scenario2 X 8 ∧ ¬ wins_at scenario2 O 7.
Proof.
  destruct (check_for_wins_complete scenario2 X) as [HX _]; [reflexivity|].
  destruct (check_for_wins_complete scenario2 O) as [_ HO]; [reflexivity|].
  split.
  - apply HX. reflexivity.
  - apply HO. reflexivity.
Defined.

(** ** Rules 1 and 2: win, or else block *)

Lemma cell_at_insert_eq (b : list cell) i v :
  i < length b → cell_at (<[i := v]> b) i = v.
Proof. intros Hi. unfold cell_at. by rewrite list_lookup_insert_eq. Qed.

Lemma cell_at_insert_ne (b : list cell) i j v :
  i ≠ j → cell_at (<[i := v]> b) j = cell_at b j.
Proof. intros Hne. unfold cell_at. by rewrite list_lookup_insert_ne. Qed.

(** X2: when the player to move can complete a line and nobody has won
    yet, [move] plays the cell found by rule 1 and the player has won. *)
Theorem move_wins_now (b : list cell) (m : mark) (c : nat) :
  wf_board b → winner b = None → check_for_wins b m = Some c →
  move b m = Some c ∧ winner (<[c := Some m]> b) = Some m.
Proof.
  intros Hwf Hw Hc. split.
  - unfold move. by rewrite Hc.
  - pose proof (forall_boards _ wins_ok_all b Hwf) as Hok.
    apply andb_true_iff in Hok as [HX HO].
    assert (wins_ok b m = true) as H by (by destruct m).
    unfold wins_ok in H. rewrite Hc in H.
    apply andb_true_iff in H as [_ H]. apply bool_decide_eq_true in H.
    rewrite H. unfold winner_after_win.
    rewrite winner_unfold in Hw.
    destruct (has_line b X); [done|]. by rewrite andb_false_r.
Qed.

Lemma move_wins_now_witness :
  move scenario2 X = Some 8 ∧ winner (<[8 := Some X]> scenario2) = Some X.
Proof.
  apply (move_wins_now scenario2 X 8); reflexivity.
Defined.

Lemma other_mark_ne m : other_mark m ≠ m.
Proof. by destruct m. Qed.

(** X3: when the player to move has no winning cell and the opponent has
    exactly one, [move] takes that cell and the opponent is left without a
    winning cell. *)
Theorem move_blocks (b : list cell) (m : mark) (c : nat) :
  wf_board b →
  check_for_wins b m = None →
  wins_at b (other_mark m) c →
  (∀ c', wins_at b (other_mark m) c' → c' = c) →
  move b m = Some c
  ∧ check_for_wins (<[c := Some m]> b) (other_mark m) = None.
Proof.
  intros Hwf H1 Hc Huniq.
  assert (check_for_wins b (other_mark m) = Some c) as H2.
  { destruct (check_for_wins b (other_mark m)) as [c'|] eqn:E.
    - f_equal. apply Huniq. by apply check_for_wins_wins_at.
    - rewrite check_for_wins_None in E by done. by destruct (E c). }
  split; [unfold move; by rewrite H1, H2|].
  pose proof (wins_at_lt _ _ _ Hc) as Hlt.
  assert (wf_board (<[c := Some m]> b)) as Hwf'.
  { unfold wf_board. by rewrite length_insert. }
  apply check_for_wins_None; [done|].
  intros d (Hd & three & Hin & Hdin & Hfull).
  assert (d ≠ c) as Hne.
  { intros ->. rewrite cell_at_insert_eq in Hd by (rewrite Hwf; done). done. }
  assert (d < 9) as Hdlt by (by apply (threes_lt three)).
  rewrite cell_at_insert_ne in Hd by done.
  assert (d = c); [|done]. apply Huniq. split; [done|].
  exists three. split; [done|]. split; [done|].
  intros sq Hsq. specialize (Hfull sq Hsq).
  destruct (decide (sq = d)) as [->|Hsd].
  - apply cell_at_insert_eq. by rewrite Hwf.
  - rewrite cell_at_insert_ne in Hfull |- * by done.
    destruct (decide (sq = c)) as [->|Hsc].
    + rewrite cell_at_insert_eq in Hfull by (rewrite Hwf; done).
      injection Hfull as Hm. by destruct (other_mark_ne m).
    + by rewrite cell_at_insert_ne in Hfull.
Qed.

Lemma move_blocks_witness :
  move [Some X; Some X; None; None; Some O; None; None; None; None] O = Some 2
  ∧ check_for_wins
      [Some X; Some X; Some O; None; Some O; None; None; None; None] X = None.
Proof.
  apply (move_blocks [Some X; Some X; None; None; Some O; None; None; None; None] O 2).
  - reflexivity.
  - reflexivity.
  - by apply wins_atb_spec.
  - intros c' Hc'. pose proof (wins_at_lt _ _ _ Hc') as Hlt.
    apply wins_atb_spec in Hc'.
    do 9 (destruct c' as [|c']; [first [reflexivity | discriminate Hc']|]). lia.
Defined.

(** ** Rules 3 and 5: forks *)

Lemma fork_ok_all : forallb (λ b, fork_ok b X && fork_ok b O) (all_boards 9) = true.
Proof. vm_compute. reflexivity. Qed.

(** X4: the cell returned by the fork search is empty, and once [m] stands
    on it, whichever other empty cell the opponent takes, [m] still has a
    cell that completes a line. *)
Theorem fork_move_forces (b : list cell) (m : mark) (i j : nat) :
  wf_board b → fork_move b m = Some i →
  j ≠ i → b !! j = Some None →
  b !! i = Some None
  ∧ is_Some (check_for_wins
               (<[j := Some (other_mark m)]> (<[i := Some m]> b)) m).
Proof.
  intros Hwf Hf Hne Hj. split.
  - destruct (fork_move_empty b m i Hf) as [Hi Hn].
    rewrite cell_at_lookup by (rewrite Hwf; done). by rewrite Hn.
  - pose proof (forall_boards _ fork_ok_all b Hwf) as Hok.
    apply andb_true_iff in Hok as [HX HO].
    assert (fork_ok b m = true) as H by (by destruct m).
    unfold fork_ok in H. rewrite Hf in H. rewrite forallb_forall in H.
    assert (j < 9) as Hlt by (rewrite <- Hwf; by apply lookup_lt_Some in Hj).
    specialize (H j). rewrite <- list_elem_of_In, elem_of_seq in H.
    assert (cell_at b j = None) as Hcj by (unfold cell_at; by rewrite Hj).
    rewrite Hcj in H. apply Nat.eqb_neq in Hne. rewrite Hne in H.
    simpl in H. assert (0 ≤ j < 0 + 9) as Hr by lia. specialize (H Hr).
    by apply bool_decide_eq_true in H.
Qed.

Lemma fork_move_forces_witness :
  is_Some (check_for_wins
             [Some O; Some O; Some X; Some X; Some X; Some O; None; None; None] X).
Proof.
  apply (fork_move_forces
           [Some O; Some O; Some X; Some X; None; None; None; None; None] X 4 5).
  - reflexivity.
  - reflexivity.
  - lia.
  - reflexivity.
Defined.

(** ** Only the mover can become the winner *)

Lemma mover_wins_all : forallb mover_wins_ok (all_boards 9) = true.
Proof. vm_compute. reflexivity. Qed.

Lemma winner_after_move b c m :
  wf_board b → winner b = None → cell_at b c = None → c < 9 →
  winner (<[c := Some m]> b) = None ∨ winner (<[c := Some m]> b) = Some m.
Proof.
  intros Hwf Hw Hc Hlt.
  pose proof (forall_boards _ mover_wins_all b Hwf) as H.
  unfold mover_wins_ok in H. rewrite Hw in H. rewrite forallb_forall in H.
  specialize (H c). rewrite <- list_elem_of_In, elem_of_seq in H.
  assert (0 ≤ c < 0 + 9) as Hr by lia. specialize (H Hr).
  rewrite forallb_forall in H. specialize (H m).
  rewrite <- list_elem_of_In in H. rewrite Hc in H. simpl in H.
  assert (m ∈ [X; O]) as Hm by (destruct m; [left | right; left]).
  specialize (H Hm). by apply bool_decide_eq_true in H.
Qed.

(** ** The loop of play: what it returns *)

Lemma occupied_le (b : list cell) : occupied b ≤ length b.
Proof. unfold occupied. apply length_filter. Qed.

Lemma occupied_full (b : list cell) :
  occupied b = length b → ¬ has_empty b.
Proof.
  intros Hocc [i Hi].
  assert (occupied b < length b) as Hlt; [|lia].
  unfold occupied. apply (length_filter_lt _ _ None).
  - apply list_elem_of_lookup. by exists i.
  - intros H. by apply H.
Qed.

Lemma occupied_cons (c : cell) (b : list cell) :
  occupied (c :: b) = match c with Some _ => 1 | None => 0 end + occupied b.
Proof.
  unfold occupied. rewrite filter_cons. destruct c.
  - by rewrite decide_True.
  - by rewrite decide_False by (intros H; by apply H).
Qed.

Lemma occupied_open (b : list cell) : occupied b < length b → has_empty b.
Proof.
  unfold has_empty. induction b as [|c b IH].
  - simpl. lia.
  - rewrite occupied_cons. destruct c as [m|]; cbn [length].
    + intros H. destruct IH as [i Hi]; [lia|]. by exists (S i).
    + intros _. by exists 0.
Qed.

Lemma apply_move_wf g m : wf_board (board g) → wf_board (board (apply_move g m)).
Proof. unfold wf_board, apply_move. simpl. by rewrite length_insert. Qed.

Lemma last_state_cons g a tr :
  last_state g (a :: tr) = last_state (after a) tr.
Proof.
  unfold last_state. destruct tr as [|a' tr]; [reflexivity|].
  rewrite last_cons_cons.
  destruct (last (a' :: tr)) eqn:E; [done|]. by apply last_None in E.
Qed.

Lemma play_loop_result fuel ps t g w tr g' w' :
  wf_board (board g) → moves g = occupied (board g) → w = winner (board g) →
  play_loop fuel ps t g w = (tr, Some (g', w')) →
  g' = last_state g tr
  ∧ wf_board (board g') ∧ moves g' = occupied (board g')
  ∧ w' = winner (board g')
  ∧ moves g' = moves g + length tr
  ∧ (w' = None → 9 ≤ moves g')
  ∧ (∀ a, last tr = Some a →
       winner (board (before a)) = None
       ∧ ∀ m, w' = Some m → mark_to_play (before a) = m).
Proof.
  revert t g w tr. induction fuel as [|fuel IH]; intros t g w tr Hwf Hinv Hw;
    destruct ((moves g <? 9) && negb (bool_decide (is_Some w))) eqn:Ec.
  - simpl. by rewrite Ec.
  - rewrite play_loop_stop by done. intros [= <- <- <-].
    apply andb_false_iff in Ec.
    split; [done|]. split; [done|]. split; [done|]. split; [done|].
    split; [simpl; lia|]. split; [|intros a Ha; inversion Ha].
    intros ->. destruct Ec as [Ec|Ec]; [|done]. by apply Nat.ltb_ge in Ec.
  - rewrite play_loop_step by done.
    destruct (ask_move fuel ps g t) as [[m t']|] eqn:Ea; [|done].
    cbv zeta.
    destruct (play_loop fuel ps t' (apply_move g m)
                (winner (board (apply_move g m)))) as [tr0 r] eqn:Ep.
    intros [= <- ->].
    apply ask_move_accepts in Ea as [Hm Hn].
    destruct (apply_move_ok g m) as (_ & _ & _ & Hmv & Hocc);
      [by rewrite Hwf | done | done |].
    cbn [before after] in Hmv, Hocc.
    destruct (IH t' (apply_move g m) _ tr0 (apply_move_wf g m Hwf) Hocc eq_refl Ep)
      as (Hlast & Hwf' & Hinv' & Hw' & Hlen & Hdraw & Hwin).
    rewrite last_state_cons. cbn [after].
    apply andb_true_iff in Ec as [_ Ec].
    assert (winner (board g) = None) as Hwg.
    { rewrite <- Hw. destruct w as [w0|]; [|done].
      rewrite bool_decide_eq_true_2 in Ec by (by eexists). done. }
    split; [done|]. split; [done|]. split; [done|]. split; [done|].
    split; [rewrite Hlen, Hmv; cbn [length]; lia|]. split; [done|].
    intros a Ha. destruct tr0 as [|a0 tr0].
    + injection Ha as <-. cbn [before]. split; [done|]. intros mk Hmk.
      unfold last_state in Hlast. simpl in Hlast. subst g'.
      destruct (winner_after_move (board g) m (mark_to_play g) Hwf Hwg Hn Hm)
        as [H|H]; unfold apply_move in Hw'; simpl in Hw'; congruence.
    + rewrite last_cons_cons in Ha. by apply Hwin.
  - rewrite play_loop_stop by done. intros [= <- <- <-].
    apply andb_false_iff in Ec.
    split; [done|]. split; [done|]. split; [done|]. split; [done|].
    split; [simpl; lia|]. split; [|intros a Ha; inversion Ha].
    intros ->. destruct Ec as [Ec|Ec]; [|done]. by apply Nat.ltb_ge in Ec.
Qed.

(** X5: when [play] on a new match returns, the value returned is what
    [winner] says of the final board, the move count is the number of moves
    applied, at most 9, and a match without a winner ends on a full board. *)
Theorem play_result (fuel : nat) (ps : players) (g : game) (w : option mark) :
  (play fuel ps new_game).2 = Some (g, w) →
  g = last_state new_game (play fuel ps new_game).1
  ∧ w = winner (board g)
  ∧ moves g = length (play fuel ps new_game).1
  ∧ moves g ≤ 9
  ∧ (w = None → moves g = 9 ∧ ¬ has_empty (board g)).
Proof.
  unfold play. destruct (play_loop fuel ps 0 new_game None) as [tr r] eqn:Ep.
  simpl. intros ->.
  destruct (play_loop_result fuel ps 0 new_game None tr g w) as
    (Hlast & Hwf & Hinv & Hw & Hlen & Hdraw & _); try done.
  pose proof (occupied_le (board g)) as Hle. rewrite Hwf in Hle.
  split; [done|]. split; [done|]. split; [done|]. split; [lia|].
  intros Hn. specialize (Hdraw Hn). split; [lia|].
  apply occupied_full. rewrite Hwf. lia.
Qed.

Lemma play_result_witness :
  (play 30 (computer X, computer O) new_game).2
  = Some (Game [Some O; Some X; Some X; Some X; Some X; Some O;
                Some O; Some O; Some X] 9, None)
  ∧ ¬ has_empty [Some O; Some X; Some X; Some X; Some X; Some O;
                 Some O; Some O; Some X].
Proof.
  assert ((play 30 (computer X, computer O) new_game).2
          = Some (Game [Some O; Some X; Some X; Some X; Some X; Some O;
                        Some O; Some O; Some X] 9, None)) as E
    by (vm_compute; reflexivity).
  split; [exact E|].
  destruct (play_result 30 (computer X, computer O) _ _ E)
    as (_ & _ & _ & _ & Hdraw).
  by destruct Hdraw.
Defined.

(** X6: a winner returned by [play] is the mark of the last move applied,
    and nobody had won before that move. *)
Theorem play_winner_moved_last (fuel : nat) (ps : players) (g : game) (m : mark) :
  (play fuel ps new_game).2 = Some (g, Some m) →
  ∃ a, last (play fuel ps new_game).1 = Some a
       ∧ after a = g ∧ mark_to_play (before a) = m
       ∧ winner (board (before a)) = None.
Proof.
  unfold play. destruct (play_loop fuel ps 0 new_game None) as [tr r] eqn:Ep.
  simpl. intros ->.
  destruct (play_loop_result fuel ps 0 new_game None tr g (Some m)) as
    (Hlast & _ & _ & Hw & _ & _ & Hwin); try done.
  unfold last_state in Hlast.
  destruct (last tr) as [a|] eqn:El; simpl in Hlast.
  - exists a. destruct (Hwin a eq_refl) as [Hnone Hmark]. auto.
  - subst g. discriminate Hw.
Qed.

Lemma play_winner_moved_last_witness :
  ∃ a, last (play 30 (seat X (λ t _, PyInt (Z.of_nat (t mod 9)))) new_game).1
       = Some a
       ∧ mark_to_play (before a) = X.
Proof.
  destruct (play_winner_moved_last 30
              (seat X (λ t _, PyInt (Z.of_nat (t mod 9))))
              (Game [Some X; Some O; None; Some X; Some X; Some O;
                     Some X; Some O; None] 7) X)
    as (a & Hl & _ & Hm & _).
  - vm_compute. reflexivity.
  - exists a. split; [exact Hl | exact Hm].
Defined.

(** ** The loop of play: no cell twice, at most nine moves *)

Lemma trace_cells_fresh g tr :
  chained g tr → Forall applied_ok tr →
  (∀ a c, a ∈ tr → board g !! played a ≠ Some (Some c))
  ∧ NoDup (played <$> tr).
Proof.
  revert g. induction tr as [|a rest IH]; intros g Hch Hall.
  - split; [intros a c Ha; inversion Ha | constructor].
  - destruct Hch as [Hbefore Hch]. apply Forall_cons in Hall as [Hok Hall].
    destruct Hok as (He & Hb & Hkeep & _). rewrite Hbefore in He, Hb, Hkeep.
    destruct (IH (after a) Hch Hall) as [Hfresh Hnd].
    assert (∃ mk, board (after a) !! played a = Some (Some mk)) as [mk Hnow].
    { eexists. rewrite Hb. apply list_lookup_insert_eq.
      by apply lookup_lt_Some in He. }
    split.
    + intros a' c Ha'. apply elem_of_cons in Ha' as [->|Ha'].
      * by rewrite He.
      * intros Hocc. apply (Hfresh a' c Ha'). by apply Hkeep.
    + rewrite fmap_cons. apply NoDup_cons. split; [|done].
      intros Hin. apply list_elem_of_fmap in Hin as (a' & Heq & Ha').
      apply (Hfresh a' mk Ha'). by rewrite <- Heq.
Qed.

Lemma trace_moves g tr :
  chained g tr → Forall applied_ok tr →
  moves g = occupied (board g) →
  moves (last_state g tr) = moves g + length tr
  ∧ length (board (last_state g tr)) = length (board g)
  ∧ moves (last_state g tr) = occupied (board (last_state g tr)).
Proof.
  revert g. induction tr as [|a rest IH]; intros g Hch Hall Hinv.
  - unfold last_state. simpl. repeat split; [lia | done].
  - destruct Hch as [Hbefore Hch]. apply Forall_cons in Hall as [Hok Hall].
    destruct Hok as (_ & Hb & _ & Hmv & Hocc). rewrite Hbefore in Hb, Hmv.
    destruct (IH (after a) Hch Hall Hocc) as (Hm & Hl & Ho).
    rewrite last_state_cons. split; [|split; [|done]].
    + rewrite Hm, Hmv. cbn [length]. lia.
    + rewrite Hl, Hb. apply length_insert.
Qed.

(** X7: in a run of [play] on a new match, whatever the participants
    propose, no cell is played twice and at most nine moves are applied. *)
Theorem play_cells_distinct (fuel : nat) (ps : players) :
  NoDup (played <$> (play fuel ps new_game).1)
  ∧ length (play fuel ps new_game).1 ≤ 9.
Proof.
  destruct (play_loop_invariant fuel ps 0 new_game None) as [Hch Hall];
    [reflexivity | reflexivity |].
  fold (play fuel ps new_game) in Hch, Hall. split.
  - by apply (trace_cells_fresh new_game).
  - destruct (trace_moves new_game _ Hch Hall eq_refl) as (Hm & Hl & Ho).
    pose proof (occupied_le (board (last_state new_game (play fuel ps new_game).1)))
      as Hle.
    rewrite <- Ho, Hl, Hm in Hle.
    change (moves new_game) with 0 in Hle.
    change (length (board new_game)) with 9 in Hle. lia.
Qed.

(** ** The loop of play: termination *)

Lemma ask_move_mono fuel fuel' ps g t r :
  ask_move fuel ps g t = Some r → fuel ≤ fuel' →
  ask_move fuel' ps g t = Some r.
Proof.
  revert fuel' t. induction fuel as [|fuel IH]; intros fuel' t; [done|].
  intros H Hle. destruct fuel' as [|fuel']; [lia|].
  simpl in *. destruct (check_move g (turn ps g t g)); [done|].
  apply IH; [done | lia].
Qed.

Lemma ask_move_eventually ps g t k :
  check_move g (turn ps g (t + k) g) = true →
  ∃ r, ask_move (S k) ps g t = Some r.
Proof.
  revert t. induction k as [|k IH]; intros t Hk.
  - rewrite Nat.add_0_r in Hk. simpl. rewrite Hk.
    apply check_move_true in Hk as (z & -> & _). eauto.
  - cbn [ask_move]. destruct (check_move g (turn ps g t g)) eqn:E.
    + apply check_move_true in E as (z & -> & _). eauto.
    + apply IH. by rewrite Nat.add_succ_comm.
Qed.

Lemma play_loop_terminates ps n :
  persistent ps →
  ∀ g t w, wf_board (board g) → moves g = occupied (board g) →
    9 - moves g ≤ n →
    ∃ F, ∀ fuel, F ≤ fuel → is_Some (play_loop fuel ps t g w).2.
Proof.
  intros Hps. induction n as [|n IH]; intros g t w Hwf Hinv Hn;
    destruct ((moves g <? 9) && negb (bool_decide (is_Some w))) eqn:Ec;
    try (exists 0; intros fuel _; rewrite play_loop_stop by done; by eexists).
  - apply andb_true_iff in Ec as [Ec _]. apply Nat.ltb_lt in Ec. lia.
  - pose proof Ec as Ec'. apply andb_true_iff in Ec' as [Hlt _].
    apply Nat.ltb_lt in Hlt.
    assert (has_empty (board g)) as He.
    { apply occupied_open. rewrite <- Hinv, Hwf. done. }
    destruct (Hps t g Hwf He) as [k Hk].
    destruct (ask_move_eventually ps g t k Hk) as [[m t'] Ha].
    pose proof (ask_move_accepts _ _ _ _ _ _ Ha) as [Hm Hcn].
    destruct (apply_move_ok g m) as (_ & _ & _ & Hmv & Hocc);
      [by rewrite Hwf | done | done |].
    cbn [before after] in Hmv, Hocc.
    destruct (IH (apply_move g m) t' (winner (board (apply_move g m)))
                (apply_move_wf g m Hwf) Hocc) as [F HF]; [lia|].
    exists (S (S k `max` F)). intros fuel Hfuel.
    destruct fuel as [|fuel]; [lia|].
    rewrite play_loop_step by done.
    rewrite (ask_move_mono (S k) fuel ps g t (m, t') Ha) by lia.
    cbv zeta. specialize (HF fuel).
    destruct (play_loop fuel ps t' (apply_move g m) _) as [tr r].
    apply HF. lia.
Qed.

Lemma move_open_Some b m :
  wf_board b → has_empty b →
  ∃ c, move b m = Some c ∧ c < 9 ∧ cell_at b c = None.
Proof.
  intros Hwf [i Hi].
  assert (i < 9) as Hlt by (rewrite <- Hwf; by apply lookup_lt_Some in Hi).
  assert (cell_at b i = None) as Hn by (unfold cell_at; by rewrite Hi).
  destruct (move b m) as [c|] eqn:E.
  - exists c. split; [done|]. by apply (move_answers_empty b m).
  - exfalso. unfold move, move_from_rule5 in E.
    apply or_else_None in E as [_ E]. apply or_else_None in E as [_ E].
    apply or_else_None in E as [_ E]. apply or_else_None in E as [_ E].
    apply or_else_None in E as [_ E]. apply or_else_None in E as [E6 E].
    apply or_else_None in E as [_ E]. apply or_else_None in E as [E8 E9].
    destruct (last_rules_cover b i Hlt Hn) as [[? H]|[[? H]|[? H]]]; congruence.
Qed.

Lemma computer_accepted m t g :
  wf_board (board g) → has_empty (board g) →
  check_move g (computer m t g) = true.
Proof.
  intros Hwf He. destruct (move_open_Some (board g) m Hwf He) as (c & E & Hc & Hn).
  unfold computer. rewrite E. apply check_move_true.
  exists (Z.of_nat c). split; [done|]. split; [lia|]. by rewrite Nat2Z.id.
Qed.

(** X8: with participants who, asked again, come up with an acceptable
    move after finitely many requests, [play] on a new match returns. *)
Theorem play_terminates (ps : players) :
  persistent ps →
  ∃ F, ∀ fuel, F ≤ fuel → is_Some (play fuel ps new_game).2.
Proof.
  intros Hps.
  apply (play_loop_terminates ps 9 Hps new_game 0 None); [done | done |].
  change (moves new_game) with 0. lia.
Qed.

Lemma play_terminates_witness :
  ∃ F, ∀ fuel, F ≤ fuel → is_Some (play fuel (computer X, computer O) new_game).2.
Proof.
  apply (play_terminates (computer X, computer O)).
  intros t g Hwf He. exists 0. unfold turn. cbn [fst snd].
  destruct (moves g mod 2 =? 0); by apply computer_accepted.
Defined.

(** ** The computer is never beaten *)

Lemma turn_seat me opp g :
  mark_to_play g = me → turn (seat me opp) g = computer me.
Proof.
  unfold mark_to_play, turn, seat.
  destruct (moves g mod 2 =? 0), me; simpl; congruence.
Qed.

Lemma safe_stop k me g :
  safe k me g = true → winner (board g) ≠ Some (other_mark me).
Proof.
  destruct k; simpl; destruct (winner (board g)) as [w|]; try done;
    intros H%bool_decide_eq_true [= ->]; by destruct me.
Qed.

Lemma play_loop_safe fuel me opp :
  ∀ k t g tr g' w',
    safe k me g = true → wf_board (board g) →
    play_loop fuel (seat me opp) t g (winner (board g)) = (tr, Some (g', w')) →
    w' ≠ Some (other_mark me).
Proof.
  induction fuel as [|fuel IH]; intros k t g tr g' w' Hs Hwf;
    destruct ((moves g <? 9) && negb (bool_decide (is_Some (winner (board g)))))
      eqn:Ec;
    try (rewrite play_loop_stop by done; intros [= <- <- <-];
         by apply (safe_stop k)).
  - simpl. by rewrite Ec.
  - rewrite play_loop_step by done.
    destruct (ask_move fuel (seat me opp) g t) as [[m t']|] eqn:Ea; [|done].
    cbv zeta.
    destruct (play_loop fuel (seat me opp) t' (apply_move g m) _)
      as [tr0 r] eqn:Ep.
    intros [= <- ->].
    apply andb_true_iff in Ec as [Hlt Hw]. apply Nat.ltb_lt in Hlt.
    assert (winner (board g) = None) as Hwg.
    { destruct (winner (board g)) as [w0|]; [|done].
      rewrite bool_decide_eq_true_2 in Hw by (by eexists). done. }
    assert (safe (pred k) me (apply_move g m) = true) as Hs'.
    { destruct k as [|k]; cbn [safe] in Hs; rewrite Hwg in Hs;
        (assert ((9 <=? moves g) = false) as Hge by (apply Nat.leb_gt; lia));
        rewrite Hge in Hs; [done|]. cbn [pred].
      destruct (bool_decide (mark_to_play g = me)) eqn:Eturn.
      - apply bool_decide_eq_true in Eturn.
        destruct (move (board g) me) as [c|] eqn:Emove; [|done].
        destruct (move_answers_empty _ _ _ Emove) as [Hc Hcn].
        destruct fuel as [|fuel]; [discriminate Ea|]. cbn [ask_move] in Ea.
        rewrite (turn_seat me opp g Eturn) in Ea. unfold computer in Ea.
        rewrite Emove in Ea.
        assert (check_move g (PyInt (Z.of_nat c)) = true) as Hcm.
        { apply check_move_true. exists (Z.of_nat c).
          split; [done|]. split; [lia|]. by rewrite Nat2Z.id. }
        rewrite Hcm in Ea. injection Ea as <- _. by rewrite Nat2Z.id.
      - apply ask_move_accepts in Ea as [Hm Hcn].
        rewrite forallb_forall in Hs. specialize (Hs m).
        rewrite <- list_elem_of_In, elem_of_seq in Hs.
        rewrite Hcn in Hs. apply Hs. lia. }
    by apply (IH (pred k) t' (apply_move g m) tr0 g' w' Hs' (apply_move_wf g m Hwf)).
Qed.

Lemma safe_new_game : safe 9 X new_game = true ∧ safe 9 O new_game = true.
Proof. split; vm_compute; reflexivity. Qed.

(** X9: in a match played from the start, the computer following [move]
    is never beaten, whichever mark it holds and whatever cells the other
    participant proposes: [play] never returns the other mark. *)
Theorem computer_never_loses (fuel : nat) (me : mark) (opp : strategy)
    (g : game) (w : option mark) :
  (play fuel (seat me opp) new_game).2 = Some (g, w) →
  w ≠ Some (other_mark me).
Proof.
  unfold play.
  destruct (play_loop fuel (seat me opp) 0 new_game None) as [tr r] eqn:Ep.
  simpl. intros ->.
  assert (winner (board new_game) = None) as Hw by reflexivity.
  rewrite <- Hw in Ep.
  apply (play_loop_safe fuel me opp 9 0 new_game tr g w); [|reflexivity|exact Ep].
  destruct safe_new_game as [HX HO]. destruct me; assumption.
Qed.

Lemma computer_never_loses_witness :
  (play 30 (seat O (λ t _, PyInt (Z.of_nat (t mod 9)))) new_game).2
  = Some (Game [Some X; Some O; Some X; None; Some O; Some X;
                None; Some O; None] 6, Some O)
  ∧ Some O ≠ Some (other_mark O).
Proof.
  assert ((play 30 (seat O (λ t _, PyInt (Z.of_nat (t mod 9)))) new_game).2
          = Some (Game [Some X; Some O; Some X; None; Some O; Some X;
                        None; Some O; None] 6, Some O)) as E.
  { vm_compute. reflexivity. }
  split; [exact E|].
  exact (computer_never_loses 30 O _ _ _ E).
Defined.

(** ** The random mover *)

Lemma empty_cells_spec b c :
  c ∈ empty_cells b ↔ c < 9 ∧ cell_at b c = None.
Proof.
  unfold empty_cells. rewrite list_elem_of_filter, elem_of_seq.
  destruct (cell_at b c); simpl; intuition (try done; lia).
Qed.

Lemma choice_elem {A} r (l : list A) x : choice r l = Some x → x ∈ l.
Proof.
  unfold choice. destruct l as [|y l]; [done|].
  intros H. apply list_elem_of_lookup. eauto.
Qed.

Lemma choice_None {A} r (l : list A) : choice r l = None ↔ l = [].
Proof.
  unfold choice. destruct l as [|y l]; [done|]. split; [|done].
  intros H. apply lookup_ge_None in H.
  pose proof (Nat.mod_upper_bound r (length (y :: l))) as Hub.
  cbn [length] in *. lia.
Qed.

Lemma choice_any {A} (l : list A) x : x ∈ l → ∃ r, choice r l = Some x.
Proof.
  intros Hin. apply list_elem_of_lookup in Hin as [i Hi].
  exists i. unfold choice. destruct l as [|y l]; [done|].
  rewrite Nat.mod_small; [done|]. by apply lookup_lt_Some in Hi.
Qed.

(** X10: the random mover returns only empty cells, which [check_move]
    accepts; it raises, on an empty list of candidates, exactly when the
    board has no empty cell; and every empty cell is returned for some
    draw of the generator. *)
Theorem player_move_spec (b : list cell) (n : nat) :
  wf_board b →
  (∀ r c, player_move r b = Some c →
          b !! c = Some None ∧ check_move (Game b n) (PyInt (Z.of_nat c)) = true)
  ∧ (∀ r, player_move r b = None ↔ ¬ has_empty b)
  ∧ (∀ c, b !! c = Some None → ∃ r, player_move r b = Some c).
Proof.
  intros Hwf. unfold player_move. split; [|split].
  - intros r c H. apply choice_elem, empty_cells_spec in H as [Hc Hn].
    split.
    + rewrite cell_at_lookup by (rewrite Hwf; done). by rewrite Hn.
    + apply check_move_true. exists (Z.of_nat c).
      split; [done|]. split; [lia|]. cbn [board]. by rewrite Nat2Z.id.
  - intros r. rewrite choice_None. split.
    + intros He [i Hi].
      assert (i ∈ empty_cells b) as Hin.
      { apply empty_cells_spec. split.
        - rewrite <- Hwf. by apply lookup_lt_Some in Hi.
        - unfold cell_at. by rewrite Hi. }
      rewrite He in Hin. inversion Hin.
    + intros Hfull. destruct (empty_cells b) as [|c l] eqn:E; [done|].
      destruct Hfull. exists c.
      assert (c ∈ empty_cells b) as Hin by (rewrite E; left).
      apply empty_cells_spec in Hin as [Hc Hn].
      rewrite cell_at_lookup by (rewrite Hwf; done). by rewrite Hn.
  - intros c Hc. apply choice_any. apply empty_cells_spec. split.
    + rewrite <- Hwf. by apply lookup_lt_Some in Hc.
    + unfold cell_at. by rewrite Hc.
Qed.

Lemma player_move_spec_witness :
  player_move 7 scenario2 = Some 7
  ∧ scenario2 !! 7 = Some None
  ∧ player_move 3 drawn_board = None.
Proof.
  destruct (player_move_spec scenario2 6) as (Hsome & _ & _); [reflexivity|].
  destruct (player_move_spec drawn_board 9) as (_ & Hnone & _); [reflexivity|].
  split; [reflexivity|]. split.
  - by destruct (Hsome 7 7 eq_refl).
  - apply Hnone. intros [i Hi].
    do 9 (destruct i as [|i]; [discriminate Hi|]). discriminate Hi.
Defined.

(** ** The human at the prompt *)




(** ** The text of the board *)

Lemma cell_text_char b n :
  n < 9 → cell_text b n = String (cell_char b n) "".
Proof.
  intros Hn. unfold cell_text, cell_char.
  destruct (cell_at b n) as [[]|]; [done | done |].
  do 9 (destruct n as [|n]; [reflexivity|]). lia.
Qed.

(** The text, character by character. *)
Lemma to_str_unfold b :
  to_str b
  = String "010"%char
      (String (cell_char b 0)
      (String " "%char
      (String (cell_char b 1)
      (String " "%char
      (String (cell_char b 2)
      (String " "%char
      (String "010"%char
      (String (cell_char b 3)
      (String " "%char
      (String (cell_char b 4)
      (String " "%char
      (String (cell_char b 5)
      (String " "%char
      (String "010"%char
      (String (cell_char b 6)
      (String " "%char
      (String (cell_char b 7)
      (String " "%char
      (String (cell_char b 8)
      (String " "%char
      (String "010"%char
      ""))))))))))))))))))))).
Proof.
  unfold to_str. cbn [seq foldl]. unfold str_step.
  rewrite !cell_text_char by lia. reflexivity.
Qed.

Lemma cell_char_inj b1 b2 n :
  n < 9 → cell_char b1 n = cell_char b2 n → cell_at b1 n = cell_at b2 n.
Proof.
  intros Hn. unfold cell_char.
  do 9 (destruct n as [|n];
        [destruct (cell_at b1 _) as [[]|], (cell_at b2 _) as [[]|];
           vm_compute; congruence|]).
  lia.
Qed.

(** X12: the text of a board has 22 characters, the cell [n] is shown at
    position 2n + n/3 + 1 as its mark, or as the digit n when it is empty,
    and two boards with the same text are the same board. *)
Theorem to_str_shows_board (b : list cell) :
  wf_board b →
  String.length (to_str b) = 22
  ∧ (∀ n, n < 9 → String.get (cell_pos n) (to_str b) = Some (cell_char b n))
  ∧ (∀ b', wf_board b' → to_str b' = to_str b → b' = b).
Proof.
  intros Hwf. rewrite to_str_unfold. split; [reflexivity|]. split.
  - intros n Hn. do 9 (destruct n as [|n]; [reflexivity|]). lia.
  - intros b' Hwf' E. rewrite to_str_unfold in E.
    assert (∀ n, n < 9 → cell_at b' n = cell_at b n) as Hcells.
    { intros n Hn. apply cell_char_inj; [done|].
      injection E as E0 E1 E2 E3 E4 E5 E6 E7 E8.
      do 9 (destruct n as [|n]; [done|]). lia. }
    apply list_eq. intros i. destruct (decide (i < 9)) as [Hi|Hi].
    + rewrite !cell_at_lookup by (rewrite ?Hwf, ?Hwf'; done).
      by rewrite Hcells.
    + rewrite !lookup_ge_None_2; [done | rewrite Hwf; lia | rewrite Hwf'; lia].
Qed.

Lemma to_str_shows_board_witness :
  String.get (cell_pos 4) (to_str scenario2) = Some "X"%char
  ∧ String.get (cell_pos 7) (to_str scenario2) = Some "7"%char.
Proof.
  destruct (to_str_shows_board scenario2) as (_ & Hshow & _); [reflexivity|].
  split.
  - exact (Hshow 4 ltac:(lia)).
  - exact (Hshow 7 ltac:(lia)).
Defined.

(** ** Setting up a match *)

Lemma upper_char_X a : upper_char a = "X"%char → a = "X"%char ∨ a = "x"%char.
Proof.
  destruct a as [[] [] [] [] [] [] [] []]; vm_compute;
    intros H; first [discriminate H | by left | by right].
Qed.

Lemma upper_char_O a : upper_char a = "O"%char → a = "O"%char ∨ a = "o"%char.
Proof.
  destruct a as [[] [] [] [] [] [] [] []]; vm_compute;
    intros H; first [discriminate H | by left | by right].
Qed.

Lemma upper_empty s : upper s = "" → s = "".
Proof. by destruct s. Qed.

Lemma upper_XO s :
  upper s ∈ ["X"; "O"] ↔ s ∈ ["X"; "O"; "x"; "o"].
Proof.
  rewrite !elem_of_cons, !elem_of_nil. split.
  - destruct s as [|a rest]; simpl; [intros [H|[H|[]]]; discriminate H|].
    intros [H|[H|[]]]; injection H as Ha Hr; apply upper_empty in Hr as ->.
    + apply upper_char_X in Ha as [->| ->]; tauto.
    + apply upper_char_O in Ha as [->| ->]; tauto.
  - intros [->|[->|[->|[->|[]]]]]; vm_compute; tauto.
Qed.

(** X13: a match that [game.__init__] builds has two participants, the
    first with mark "X" and the second with mark "O", each knowing the
    other's mark, and starts from the empty board with move count 0; so the
    participant that [play] asks at a move count holds the mark that
    [play] then writes. *)
Theorem game_init_players (hmark : option string) (draw : bool) (c1 c2 : kind)
    (g : match_setup) :
  game_init hmark draw c1 c2 = Built g →
  (∃ k1 k2, the_players g = [Participant k1 "X" "O"; Participant k2 "O" "X"])
  ∧ start g = new_game
  ∧ (∀ g0 p, the_players g !! (moves g0 mod 2) = Some p →
             p_mark p = mark_str (mark_to_play g0)).
Proof.
  intros H.
  assert (∃ k1 k2, the_players g = [Participant k1 "X" "O"; Participant k2 "O" "X"]
                   ∧ start g = new_game) as (k1 & k2 & Hp & Hs).
  { unfold game_init in H. destruct hmark as [[|a rest]|].
    - destruct draw; injection H as <-; by eexists _, _.
    - destruct (bool_decide (upper (String a rest) ∈ ["X"; "O"])) eqn:E; [|done].
      apply bool_decide_eq_true, upper_XO in E.
      rewrite !elem_of_cons, elem_of_nil in E.
      destruct E as [E|[E|[E|[E|[]]]]]; rewrite E in H;
        first [ discriminate H | injection H as <-; by eexists _, _ ].
    - destruct draw; injection H as <-; by eexists _, _. }
  split; [by exists k1, k2|]. split; [done|].
  intros g0 p. rewrite Hp. unfold mark_to_play.
  pose proof (Nat.mod_upper_bound (moves g0) 2) as Hub.
  destruct (moves g0 mod 2) as [|[|k]] eqn:E; simpl; [| |lia]; by intros [= <-].
Qed.

Lemma game_init_players_witness :
  ∃ g, game_init (Some "O") false Computer Monkey = Built g
       ∧ start g = new_game
       ∧ the_players g = [Participant Computer "X" "O"; Participant Human "O" "X"].
Proof.
  eexists. split; [reflexivity|]. split; [|reflexivity].
  by destruct (game_init_players (Some "O") false Computer Monkey _ eq_refl)
    as (_ & Hs & _).
Defined.

(** X14: how [game.__init__] ends.  Without a human mark, given as None or
    as the empty string, it builds a match between [c1] and [c2]; with "X"
    or "O" it builds a match with the human; with "x" or "o" the test on
    [hmark.upper()] passes and the assertion of [player.__init__] fails;
    with any other string it exits. *)
Theorem game_init_outcome (draw : bool) (c1 c2 : kind) :
  (∀ hmark, hmark = None ∨ hmark = Some "" →
     ∃ g, game_init hmark draw c1 c2 = Built g ∧ cmatch g = true)
  ∧ (∀ h, h ∈ ["X"; "O"] →
       ∃ g, game_init (Some h) draw c1 c2 = Built g
            ∧ cmatch g = false ∧ vmark g = h
            ∧ Participant Human h (XO_at (bool_decide (h = "X"))) ∈ the_players g)
  ∧ (∀ h, h ∈ ["x"; "o"] → game_init (Some h) draw c1 c2 = AssertionFailed)
  ∧ (∀ h, h ∉ [""; "X"; "O"; "x"; "o"] → game_init (Some h) draw c1 c2 = Exited).
Proof.
  split; [|split; [|split]].
  - intros hmark [-> | ->]; destruct draw; by eexists.
  - intros h Hh. rewrite !elem_of_cons, elem_of_nil in Hh.
    destruct Hh as [->|[->|[]]]; eexists; (split; [reflexivity|]);
      (split; [reflexivity|]); (split; [reflexivity|]); simpl;
      rewrite !elem_of_cons; tauto.
  - intros h Hh. rewrite !elem_of_cons, elem_of_nil in Hh.
    by destruct Hh as [->|[->|[]]].
  - intros h Hh. unfold game_init. destruct h as [|a rest].
    + destruct Hh. left.
    + rewrite bool_decide_eq_false_2; [done|].
      rewrite upper_XO. intros Hin. apply Hh. by right.
Qed.

(** ** The dictionary of twos *)

Lemma twos_ok_all : forallb (λ b, twos_ok b X && twos_ok b O) (all_boards 9) = true.
Proof. vm_compute. reflexivity. Qed.

Lemma twos_get_elem k v t : twos_get k t = Some v → (k, v) ∈ t.
Proof.
  induction t as [|[k' v'] t IH]; simpl; [done|].
  case_decide as Hk.
  - intros [= <-]. subst k'. left.
  - intros H. right. auto.
Qed.

(** X15: the result of [check_for_twos] has each key once; every key is an
    empty cell of the board and every multiplicity lies between 1 and 4. *)
Theorem check_for_twos_dictionary (b : list cell) (m : mark) :
  wf_board b →
  NoDup (twos_keys (check_for_twos b m))
  ∧ ∀ c v, twos_get c (check_for_twos b m) = Some v →
           b !! c = Some None ∧ 1 ≤ v ≤ 4.
Proof.
  intros Hwf. pose proof (forall_boards _ twos_ok_all b Hwf) as H.
  apply andb_true_iff in H as [HX HO].
  assert (twos_ok b m = true) as Hok by (by destruct m). clear HX HO.
  unfold twos_ok in Hok. cbv zeta in Hok.
  apply andb_true_iff in Hok as [Hnd Hall].
  apply bool_decide_eq_true in Hnd. split; [done|].
  intros c v Hget. apply twos_get_elem in Hget.
  rewrite forallb_forall in Hall. apply list_elem_of_In in Hget.
  specialize (Hall (c, v) Hget). cbn [fst snd] in Hall.
  apply andb_true_iff in Hall as [Hall H4].
  apply andb_true_iff in Hall as [Hall H1].
  apply andb_true_iff in Hall as [Hc Hn].
  apply Nat.ltb_lt in Hc. apply Nat.leb_le in H1, H4.
  split; [|lia]. apply cell_at_empty; [by rewrite Hwf | done].
Qed.

Lemma check_for_twos_dictionary_witness :
  NoDup (twos_keys (check_for_twos rule4_board X))
  ∧ rule4_board !! 7 = Some None.
Proof.
  destruct (check_for_twos_dictionary rule4_board X) as [Hnd Hget]; [reflexivity|].
  split; [exact Hnd|].
  by destruct (Hget 7 1 eq_refl).
Defined.

(** ** Rule 4 makes a threat *)

Lemma force_ok_all : forallb (λ b, force_ok b X && force_ok b O) (all_boards 9) = true.
Proof. vm_compute. reflexivity. Qed.

(** X16: the cell [i] that rule 4 plays is empty; with the mark placed
    there the player has a cell [w] that completes a line, so that the
    opponent has to answer at once; and [w] is not a key of the opponent's
    twos with a multiplicity above 1. *)
Theorem force_move_threatens (b : list cell) (m : mark) (i : nat) :
  wf_board b → force_move b m = Some i →
  b !! i = Some None
  ∧ ∃ w, check_for_wins (<[i := Some m]> b) m = Some w
         ∧ (<[i := Some m]> b) !! w = Some None
         ∧ ∀ n, twos_get w (check_for_twos (<[i := Some m]> b) (other_mark m))
                = Some n → n ≤ 1.
Proof.
  intros Hwf Hf. split.
  - destruct (force_move_empty b m i Hf) as [Hi Hn].
    rewrite cell_at_lookup by (rewrite Hwf; done). by rewrite Hn.
  - pose proof (forall_boards _ force_ok_all b Hwf) as H.
    apply andb_true_iff in H as [HX HO].
    assert (force_ok b m = true) as Hok by (by destruct m). clear HX HO.
    unfold force_ok in Hok. rewrite Hf in Hok. cbv zeta in Hok.
    destruct (check_for_wins (<[i := Some m]> b) m) as [w|] eqn:Ew; [|done].
    apply andb_true_iff in Hok as [Hn Hfp]. exists w. split; [done|].
    pose proof (check_for_wins_empty _ _ _ Ew) as [Hw _]. split.
    + apply cell_at_empty; [|done]. by rewrite length_insert, Hwf.
    + intros n Hget. unfold is_fork_point in Hfp. rewrite Hget in Hfp.
      apply negb_true_iff, Nat.ltb_ge in Hfp. done.
Qed.

Lemma force_move_threatens_witness :
  ∃ w, check_for_wins (<[8 := Some X]> rule4_board) X = Some w
       ∧ (<[8 := Some X]> rule4_board) !! w = Some None.
Proof.
  destruct (force_move_threatens rule4_board X 8) as (_ & w & Hw & He & _).
  - reflexivity.
  - reflexivity.
  - exists w. split; [exact Hw | exact He].
Defined.
